(** * Chat-with-PDF: a shallow embedding of the RAG pipeline

    The development follows the two scripts of [RAG/chatwithpdf]:
    [query.js] (the conversational query phase, with its process-wide
    [History] array) and [index.js] (the ingestion phase).

    The chat model, the embedding model and the vector index are remote
    services.  They are represented by a [World]: every request is answered
    by a function of the number of requests issued so far and of the request
    itself, so a service may fail once and succeed later.  A rejected promise
    is an exception that unwinds [transformQuery], [chatting] and [main]; the
    [History] array is mutated in place and keeps whatever was written to it
    before the exception. *)

From Stdlib Require Import Ascii String Arith Lia.
From stdpp Require Import base list strings pretty gmap.

#[local] Set Warnings "-clear-no-such-hyp".

(** ** Data exchanged with the services *)

Module Role.
Inductive t := user | model.
End Role.

Record Part := { text : string }.

Record Content := { role : Role.t; parts : list Part }.

Record GenerateContentConfig := { systemInstruction : string }.

Record GenerateContentParameters := {
  model : string;
  contents : list Content;
  config : GenerateContentConfig
}.

(** [response.text] *)
Record GenerateContentResponse := { response_text : string }.

(** The fields given to [new GoogleGenerativeAIEmbeddings({...})]; the source
    field [model] is [embedding_model] here. *)
Record GoogleGenerativeAIEmbeddingsParams := {
  apiKey : option string;
  embedding_model : string
}.

(** [match.metadata.text] *)
Record RecordMetadata := { metadata_text : string }.

Record ScoredPineconeRecord := { metadata : RecordMetadata }.

Record QueryResponse := { matches : list ScoredPineconeRecord }.

Record QueryOptions (Vec : Type) := {
  topK : nat;
  vector : Vec;
  includeMetadata : bool
}.
Arguments topK {Vec} _.
Arguments vector {Vec} _.
Arguments includeMetadata {Vec} _.

(** [process.env] *)
Record Env := {
  GEMINI_API_KEY : option string;
  PINECONE_INDEX_NAME : option string
}.

(** ** Promises and the remote services *)

Definition Error := string.

Inductive Settled (A : Type) :=
| Fulfilled (a : A)
| Rejected (e : Error).
Arguments Fulfilled {A} a.
Arguments Rejected {A} e.

Record World (Vec : Type) := {
  generateContent : nat -> GenerateContentParameters -> Settled GenerateContentResponse;
  embedQuery : nat -> GoogleGenerativeAIEmbeddingsParams -> string -> Settled Vec;
  index_query : nat -> option string -> QueryOptions Vec -> Settled QueryResponse
}.
Arguments generateContent {Vec} _ _ _.
Arguments embedQuery {Vec} _ _ _ _.
Arguments index_query {Vec} _ _ _ _.

(** ** Program state and the events of a run *)

Inductive Event (Vec : Type) :=
| EvPush (c : Content)
| EvPop
| EvGenerate (p : GenerateContentParameters)
| EvEmbed (p : GoogleGenerativeAIEmbeddingsParams) (q : string)
| EvQuery (index : option string) (o : QueryOptions Vec)
| EvLog (s : string)
| EvQuestion (query : string).
Arguments EvPush {Vec} c.
Arguments EvPop {Vec}.
Arguments EvGenerate {Vec} p.
Arguments EvEmbed {Vec} p q.
Arguments EvQuery {Vec} index o.
Arguments EvLog {Vec} s.
Arguments EvQuestion {Vec} query.

Record State (Vec : Type) := {
  History : list Content;
  clock : nat;
  log : list (Event Vec)
}.
Arguments History {Vec} _.
Arguments clock {Vec} _.
Arguments log {Vec} _.
Arguments Build_State {Vec} _ _ _.

(** [const History = []] at start-up *)
Definition initial (Vec : Type) : State Vec :=
  {| History := []; clock := 0; log := [] |}.

(** ** A state-and-exception monad *)

Inductive Outcome (A : Type) :=
| Returned (a : A)
| Thrown (e : Error).
Arguments Returned {A} a.
Arguments Thrown {A} e.

Definition M (Vec A : Type) : Type := State Vec -> Outcome A * State Vec.

Definition ret {Vec A} (a : A) : M Vec A := fun s => (Returned a, s).

Definition bind {Vec A B} (m : M Vec A) (k : A -> M Vec B) : M Vec B :=
  fun s =>
    match m s with
    | (Returned a, s') => k a s'
    | (Thrown e, s') => (Thrown e, s')
    end.

Notation "'let!' x ':=' m 'in' k" := (bind m (fun x => k))
  (at level 10, x name, m at level 100, k at level 200).
Notation "m ';;;' k" := (bind m (fun _ => k))
  (at level 100, k at level 200, right associativity).

Section Effects.
Context {Vec : Type}.

Definition emit (e : Event Vec) (s : State Vec) : State Vec :=
  {| History := History s; clock := clock s; log := log s ++ [e] |}.

Definition tick (s : State Vec) : State Vec :=
  {| History := History s; clock := S (clock s); log := log s |}.

(** [History.push(c)] *)
Definition History_push (c : Content) : M Vec unit :=
  fun s =>
    (Returned tt,
     {| History := History s ++ [c]; clock := clock s;
        log := log s ++ [EvPush c] |}).

(** [History.pop()]; on an empty array it does nothing *)
Definition History_pop : M Vec unit :=
  fun s =>
    (Returned tt,
     {| History := removelast (History s); clock := clock s;
        log := log s ++ [EvPop] |}).

(** Reading the variable [History] *)
Definition History_get : M Vec (list Content) :=
  fun s => (Returned (History s), s).

(** [await p]: a rejected promise throws *)
Definition await {A} (ev : Event Vec) (p : nat -> Settled A) : M Vec A :=
  fun s =>
    let s' := tick (emit ev s) in
    match p (clock s) with
    | Fulfilled a => (Returned a, s')
    | Rejected e => (Thrown e, s')
    end.

(** [console.log(s)] *)
Definition console_log (msg : string) : M Vec unit :=
  fun s => (Returned tt, emit (EvLog msg) s).

(** The state once [readlineSync.question(query)] has shown its prompt *)
Definition asked (query : string) (s : State Vec) : State Vec :=
  emit (EvQuestion query) s.

(** [readlineSync.question(query)]: show the prompt and block for a line;
    the line itself comes from the input given to [main] *)
Definition readlineSync_question (query : string) : M Vec unit :=
  fun s => (Returned tt, asked query s).
End Effects.

(** ** [query.js] *)

Definition dquote : string := String "034"%char EmptyString.
Definition newline : string := String "010"%char EmptyString.

(** The system instruction of the rewriting call (a two-line template
    literal). *)
Definition rewrite_instruction : string :=
  "You are a query rewriting expert. Based on the provided chat history, rephrase the "
  +:+ dquote +:+ "Follow Up user Question" +:+ dquote
  +:+ " into a complete, standalone question that can be understood without the chat history."
  +:+ newline
  +:+ "    Only output the rewritten question and nothing else.".

(** The sentence the answering model is told to say. *)
Definition fallback : string :=
  "I could not find the answer in the provided document.".

(** The system instruction of the answering call, with [${context}]
    interpolated. *)
Definition answer_instruction (context : string) : string :=
  "You have to behave like a Data Structure and Algorithm Expert." +:+ newline
  +:+ "    You will be given a context of relevant information and a user question." +:+ newline
  +:+ "    Your task is to answer the user's question based ONLY on the provided context." +:+ newline
  +:+ "    If the answer is not in the context, you must say "
  +:+ dquote +:+ fallback +:+ dquote +:+ newline
  +:+ "    Keep your answers clear, concise, and educational." +:+ newline
  +:+ "      " +:+ newline
  +:+ "      Context: " +:+ context +:+ newline
  +:+ "      ".

(** [Array.prototype.join] on an array of strings *)
Fixpoint join (sep : string) (xs : list string) : string :=
  match xs with
  | [] => ""
  | [x] => x
  | x :: rest => x +:+ sep +:+ join sep rest
  end.

Definition separator : string :=
  newline +:+ newline +:+ "---" +:+ newline +:+ newline.

(** [searchResults.matches.map(match => match.metadata.text).join("\n\n---\n\n")] *)
Definition build_context (searchResults : QueryResponse) : string :=
  join separator (map (fun m => metadata_text (metadata m)) (matches searchResults)).

Definition user_turn (q : string) : Content :=
  {| role := Role.user; parts := [ {| text := q |} ] |}.

Definition model_turn (r : string) : Content :=
  {| role := Role.model; parts := [ {| text := r |} ] |}.

Definition rewrite_request (H : list Content) : GenerateContentParameters :=
  {| model := "gemini-2.0-flash";
     contents := H;
     config := {| systemInstruction := rewrite_instruction |} |}.

Definition answer_request (H : list Content) (context : string)
  : GenerateContentParameters :=
  {| model := "gemini-2.0-flash";
     contents := H;
     config := {| systemInstruction := answer_instruction context |} |}.

(** [new GoogleGenerativeAIEmbeddings({...})] in [query.js] *)
Definition query_embeddingModel (env : Env) : GoogleGenerativeAIEmbeddingsParams :=
  {| apiKey := GEMINI_API_KEY env; embedding_model := "text-embedding-004" |}.

(** The argument of [pineconeIndex.query] *)
Definition query_options {Vec : Type} (queryVector : Vec) : QueryOptions Vec :=
  {| topK := 10; vector := queryVector; includeMetadata := true |}.

(** [History] with the utterance [q] pushed as a user turn *)
Definition provisional {Vec : Type} (q : string) (s : State Vec) : list Content :=
  History s ++ [user_turn q].

Section Query.
Context {Vec : Type} (w : World Vec) (env : Env).

(** [ai.models.generateContent(p)], where [p.contents] is the array
    [History] as it is when the call is made *)
Definition ai_generateContent (mk : list Content -> GenerateContentParameters)
  : M Vec GenerateContentResponse :=
  let! H := History_get in
  await (EvGenerate (mk H)) (fun t => generateContent w t (mk H)).

Definition transformQuery (question : string) : M Vec string :=
  History_push (user_turn question) ;;;
  let! response := ai_generateContent rewrite_request in
  History_pop ;;;
  ret (response_text response).

Definition chatting (question : string) : M Vec unit :=
  let! enhancedQuery := transformQuery question in
  let embeddingModel := query_embeddingModel env in
  let! queryVector :=
    await (EvEmbed embeddingModel enhancedQuery)
          (fun t => embedQuery w t embeddingModel enhancedQuery) in
  let opts := query_options queryVector in
  let! searchResults :=
    await (EvQuery (PINECONE_INDEX_NAME env) opts)
          (fun t => index_query w t (PINECONE_INDEX_NAME env) opts) in
  let context := build_context searchResults in
  History_push (user_turn enhancedQuery) ;;;
  let! response :=
    ai_generateContent (fun H => answer_request H context) in
  History_push (model_turn (response_text response)) ;;;
  console_log newline ;;;
  console_log (response_text response).

(** [main]: one utterance per line read; the recursive call is reached
    only when [chatting] returned, and with no more input the program
    waits at the prompt. *)
Fixpoint main (input : list string) : M Vec unit :=
  readlineSync_question "Ask me anything --> " ;;;
  match input with
  | [] => ret tt
  | userProblem :: rest => chatting userProblem ;;; main rest
  end.

(** The states in which [main] calls [readlineSync.question], in order. *)
Fixpoint prompts (input : list string) (s : State Vec) : list (State Vec) :=
  s :: match input with
       | [] => []
       | userProblem :: rest =>
           match chatting userProblem (asked "Ask me anything --> " s) with
           | (Returned _, s') => prompts rest s'
           | (Thrown _, _) => []
           end
       end.

(** The number of turns of a session that returned: every prompt but the
    first is reached through one. *)
Definition completed (input : list string) (s : State Vec) : nat :=
  length (prompts input s) - 1.
End Query.

(** ** [index.js] *)

(** A LangChain [Document]: page content and the identifier of its source *)
Record Document := { pageContent : string; source : string }.

Record RecursiveCharacterTextSplitterParams := {
  chunkSize : nat;
  chunkOverlap : nat
}.

(** [new RecursiveCharacterTextSplitter({chunkSize:1000, chunkOverlap:200})] *)
Definition textSplitter : RecursiveCharacterTextSplitterParams :=
  {| chunkSize := 1000; chunkOverlap := 200 |}.

(** [new GoogleGenerativeAIEmbeddings({...})] in [index.js] *)
Definition index_embeddingModel (env : Env) : GoogleGenerativeAIEmbeddingsParams :=
  {| apiKey := GEMINI_API_KEY env; embedding_model := "text-embedding-004" |}.

(** A row of the vector index *)
Record IndexedVector (Vec : Type) := {
  values : Vec;
  record_text : string;
  record_source : string
}.
Arguments values {Vec} _.
Arguments record_text {Vec} _.
Arguments record_source {Vec} _.
Arguments Build_IndexedVector {Vec} _ _ _.

(** The third argument of [PineconeStore.fromDocuments]: the index handle
    and [maxConcurrency].  The call gives no [ids]. *)
Record PineconeStoreParams := {
  pineconeIndex : option string;
  maxConcurrency : nat
}.

(** What [index.js] calls but does not define: the PDF loader, the text
    splitter, the embedding service, the identifier under which the store
    client files the [k]-th record it is handed (the script supplies none
    of its own), and the answer of the store to the upsert of that record,
    given the index and the concurrency it was called with. *)
Record IngestWorld (Vec : Type) := {
  pdf_load : string -> Settled (list Document);
  splitDocuments : RecursiveCharacterTextSplitterParams -> list Document -> list Document;
  embedDocuments : GoogleGenerativeAIEmbeddingsParams -> list string -> Settled (list Vec);
  assign_id : nat -> Document -> string;
  store_upsert : nat -> PineconeStoreParams -> string -> IndexedVector Vec -> Settled unit
}.
Arguments pdf_load {Vec} _ _.
Arguments splitDocuments {Vec} _ _ _.
Arguments embedDocuments {Vec} _ _ _.
Arguments assign_id {Vec} _ _ _.
Arguments store_upsert {Vec} _ _ _ _ _.

(** The vector index with its rows by id, and the number of ids handed out *)
Record Index (Vec : Type) := {
  rows : gmap string (IndexedVector Vec);
  issued : nat
}.
Arguments rows {Vec} _.
Arguments issued {Vec} _.
Arguments Build_Index {Vec} _ _.

Definition empty_index (Vec : Type) : Index Vec :=
  {| rows := ∅; issued := 0 |}.

Definition PDF_PATH : string :=
  "D:\Lovely Professional University\Educational\GenAI Program By Google Cloud\RAG\chatwithpdf\Dsa.pdf".

Section Ingestion.
Context {Vec : Type} (iw : IngestWorld Vec) (env : Env).

(** One upsert: the row replaces whatever the index holds under its id *)
Definition upsert (ix : Index Vec) (dv : Document * Vec) : Index Vec :=
  let '(d, v) := dv in
  {| rows := <[ assign_id iw (issued ix) d :=
                {| values := v; record_text := pageContent d;
                   record_source := source d |} ]> (rows ix);
     issued := S (issued ix) |}.

(** The store's answer to one record of the batch: a record it accepts is
    upserted, a record it rejects is not written, and the first rejection
    is remembered. *)
Definition store_row (dbConfig : PineconeStoreParams)
    (acc : option Error * Index Vec) (dv : Document * Vec)
  : option Error * Index Vec :=
  let '(failed, ix) := acc in
  let '(d, v) := dv in
  let id := assign_id iw (issued ix) d in
  let row := {| values := v; record_text := pageContent d;
                record_source := source d |} in
  match store_upsert iw (issued ix) dbConfig id row with
  | Fulfilled _ => (failed, upsert ix dv)
  | Rejected e =>
      (Some (default e failed), {| rows := rows ix; issued := S (issued ix) |})
  end.

(** [PineconeStore.fromDocuments(docs, embeddings, {pineconeIndex, maxConcurrency})]:
    embed the page contents, then send one record per document to the
    store, several requests at a time.  A rejected embedding call rejects
    before anything is written; a rejection by the store rejects the call
    too, and the records the store did accept stay written. *)
Definition PineconeStore_fromDocuments (docs : list Document)
    (embeddings : GoogleGenerativeAIEmbeddingsParams)
    (dbConfig : PineconeStoreParams) (ix : Index Vec)
  : Outcome unit * Index Vec :=
  match embedDocuments iw embeddings (map pageContent docs) with
  | Rejected e => (Thrown e, ix)
  | Fulfilled vs =>
      match foldl (store_row dbConfig) (None, ix) (zip docs vs) with
      | (None, ix') => (Returned tt, ix')
      | (Some e, ix') => (Thrown e, ix')
      end
  end.

Definition saveDocumentIntoVectorDatabase (ix : Index Vec)
  : Outcome unit * Index Vec :=
  match pdf_load iw PDF_PATH with
  | Rejected e => (Thrown e, ix)
  | Fulfilled rawDocs =>
      let chunkDocs := splitDocuments iw textSplitter rawDocs in
      let embeddingModel := index_embeddingModel env in
      PineconeStore_fromDocuments chunkDocs embeddingModel
        {| pineconeIndex := PINECONE_INDEX_NAME env; maxConcurrency := 5 |} ix
  end.

(** The ids handed out for [docs] when [n] ids were issued before *)
Fixpoint ids_from (n : nat) (docs : list Document) : list string :=
  match docs with
  | [] => []
  | d :: rest => assign_id iw n d :: ids_from (S n) rest
  end.
End Ingestion.

(** ** The chunker *)

Module Chunker.

Inductive ConfigError := OverlapNotBelowChunkSize.

Record Chunk := {
  chunk_text : string;
  sourceId : string;
  offset : nat;
  length : nat
}.

(** Modelled from the spec: the chunking algorithm itself.  [index.js]
    only constructs the imported [RecursiveCharacterTextSplitter] with
    [chunkSize] 1000 and [chunkOverlap] 200 and calls it; the splitter's
    code is not part of the sources.  The scan below is section 4.1: each
    chunk is [text[offset : offset+chunkSize]], the next offset is
    [offset + chunkSize - overlap], and the scan stops when
    [offset >= length(text)].  [fuel] bounds the number of iterations. *)
Fixpoint scan (fuel : nat) (text src : string) (size overlap off : nat)
  : list Chunk :=
  match fuel with
  | 0 => []
  | S fuel' =>
      if String.length text <=? off then []
      else
        let piece := String.substring off size text in
        {| chunk_text := piece; sourceId := src; offset := off;
           length := String.length piece |}
        :: scan fuel' text src size overlap (off + size - overlap)
  end.

(** Modelled from the spec: the contract of section 4.1,
    [chunk(document, chunkSize, overlap)], failing with [ConfigError] when
    [overlap >= chunkSize]. *)
Definition chunk (document : Document) (size overlap : nat)
  : ConfigError + list Chunk :=
  if size <=? overlap then inl OverlapNotBelowChunkSize
  else inr (scan (String.length (pageContent document))
                 (pageContent document) (source document) size overlap 0).

End Chunker.

(** ** Observations on a run *)

(** The text of the model turn that ends [History], if it ends in one:
    the answer of the last completed turn *)
Definition answer_text {Vec : Type} (s : State Vec) : option string :=
  match last (History s) with
  | Some {| role := Role.model; parts := [p] |} => Some (text p)
  | _ => None
  end.

(** The turns of completed exchanges, each a rewritten query and its answer *)
Definition exchange_turns (exchanges : list (string * string)) : list Content :=
  flat_map (fun x => [user_turn x.1; model_turn x.2]) exchanges.

(** The request of the latest [generateContent] call among [evs] *)
Fixpoint last_generate {Vec : Type} (evs : list (Event Vec))
  : option GenerateContentParameters :=
  match evs with
  | [] => None
  | e :: rest =>
      match last_generate rest, e with
      | Some p, _ => Some p
      | None, EvGenerate p => Some p
      | None, _ => None
      end
  end.

(** Events that are requests to the embedding service or to the index *)
Definition is_lookup {Vec : Type} (e : Event Vec) : Prop :=
  match e with
  | EvEmbed _ _ | EvQuery _ _ => True
  | _ => False
  end.

(** Events that write to [History] *)
Definition writes_History {Vec : Type} (e : Event Vec) : Prop :=
  match e with
  | EvPush _ | EvPop => True
  | _ => False
  end.

(** Events that are requests to a remote service *)
Definition is_request {Vec : Type} (e : Event Vec) : Prop :=
  match e with
  | EvGenerate _ | EvEmbed _ _ | EvQuery _ _ => True
  | _ => False
  end.

(** The number of requests among [evs] *)
Definition count_requests {Vec : Type} (evs : list (Event Vec)) : nat :=
  length (flat_map (fun e => match e with
                             | EvGenerate _ | EvEmbed _ _ | EvQuery _ _ => [e]
                             | _ => []
                             end) evs).

(** What [console.log] wrote, in order *)
Definition printed {Vec : Type} (evs : list (Event Vec)) : list string :=
  flat_map (fun e => match e with EvLog msg => [msg] | _ => [] end) evs.

(** The requests made to the chat model, in order *)
Definition generate_requests {Vec : Type} (evs : list (Event Vec))
  : list GenerateContentParameters :=
  flat_map (fun e => match e with EvGenerate p => [p] | _ => [] end) evs.

(** The events a run added to the log *)
Definition new_events {Vec : Type} (before after : State Vec) : list (Event Vec) :=
  drop (length (log before)) (log after).

(** Turns that start with the user and alternate with the model *)
Definition alternating (turns : list Content) : Prop :=
  forall i c, turns !! i = Some c ->
    role c = if Nat.even i then Role.user else Role.model.

(** What a completed session printed: a blank line and the answer, per
    exchange *)
Definition exchange_prints (exchanges : list (string * string)) : list string :=
  flat_map (fun x => [newline; x.2]) exchanges.

Section Turn.
Context {Vec : Type} (w : World Vec) (env : Env) (q : string) (s : State Vec).

(** The five ways a turn can go, by the first request that is rejected:
    its outcome, what it appended to [History], how many requests it made
    and the events it logged. *)
Inductive turn : Outcome unit -> list Content -> nat -> list (Event Vec) -> Prop :=
| turn_rewrite_rejected e :
    generateContent w (clock s) (rewrite_request (provisional q s)) = Rejected e ->
    turn (Thrown e) [user_turn q] 1
      [EvPush (user_turn q); EvGenerate (rewrite_request (provisional q s))]
| turn_embed_rejected r e :
    generateContent w (clock s) (rewrite_request (provisional q s)) = Fulfilled r ->
    embedQuery w (S (clock s)) (query_embeddingModel env) (response_text r)
      = Rejected e ->
    turn (Thrown e) [] 2
      [EvPush (user_turn q); EvGenerate (rewrite_request (provisional q s)); EvPop;
       EvEmbed (query_embeddingModel env) (response_text r)]
| turn_query_rejected r v e :
    generateContent w (clock s) (rewrite_request (provisional q s)) = Fulfilled r ->
    embedQuery w (S (clock s)) (query_embeddingModel env) (response_text r)
      = Fulfilled v ->
    index_query w (S (S (clock s))) (PINECONE_INDEX_NAME env) (query_options v)
      = Rejected e ->
    turn (Thrown e) [] 3
      [EvPush (user_turn q); EvGenerate (rewrite_request (provisional q s)); EvPop;
       EvEmbed (query_embeddingModel env) (response_text r);
       EvQuery (PINECONE_INDEX_NAME env) (query_options v)]
| turn_generate_rejected r v found e :
    generateContent w (clock s) (rewrite_request (provisional q s)) = Fulfilled r ->
    embedQuery w (S (clock s)) (query_embeddingModel env) (response_text r)
      = Fulfilled v ->
    index_query w (S (S (clock s))) (PINECONE_INDEX_NAME env) (query_options v)
      = Fulfilled found ->
    generateContent w (S (S (S (clock s))))
      (answer_request (provisional (response_text r) s) (build_context found))
      = Rejected e ->
    turn (Thrown e) [user_turn (response_text r)] 4
      [EvPush (user_turn q); EvGenerate (rewrite_request (provisional q s)); EvPop;
       EvEmbed (query_embeddingModel env) (response_text r);
       EvQuery (PINECONE_INDEX_NAME env) (query_options v);
       EvPush (user_turn (response_text r));
       EvGenerate (answer_request (provisional (response_text r) s)
                     (build_context found))]
| turn_returned r v found a :
    generateContent w (clock s) (rewrite_request (provisional q s)) = Fulfilled r ->
    embedQuery w (S (clock s)) (query_embeddingModel env) (response_text r)
      = Fulfilled v ->
    index_query w (S (S (clock s))) (PINECONE_INDEX_NAME env) (query_options v)
      = Fulfilled found ->
    generateContent w (S (S (S (clock s))))
      (answer_request (provisional (response_text r) s) (build_context found))
      = Fulfilled a ->
    turn (Returned tt)
      [user_turn (response_text r); model_turn (response_text a)] 4
      [EvPush (user_turn q); EvGenerate (rewrite_request (provisional q s)); EvPop;
       EvEmbed (query_embeddingModel env) (response_text r);
       EvQuery (PINECONE_INDEX_NAME env) (query_options v);
       EvPush (user_turn (response_text r));
       EvGenerate (answer_request (provisional (response_text r) s)
                     (build_context found));
       EvPush (model_turn (response_text a));
       EvLog newline;
       EvLog (response_text a)].
End Turn.

(** ** Concrete runs *)

Module Scenario.

Definition env : Env :=
  {| GEMINI_API_KEY := Some "gemini-key"; PINECONE_INDEX_NAME := Some "dsa" |}.

Definition question : string := "What is the average lookup time of a BST?".

Definition standalone : string :=
  "What is the average lookup time of a binary search tree?".

Definition passage : string :=
  "Binary search trees have O(log n) average lookup time.".

Definition reply : string := "The average lookup time is O(log n).".

(** A chat model that answers the rewriting instruction with [standalone]
    and any other instruction with [reply] *)
Definition chat (p : GenerateContentParameters) : GenerateContentResponse :=
  {| response_text :=
       if String.eqb (systemInstruction (config p)) rewrite_instruction
       then standalone else reply |}.

Definition hit : QueryResponse :=
  {| matches := [ {| metadata := {| metadata_text := passage |} |} ] |}.

(** Every service answers *)
Definition healthy : World (list nat) :=
  {| generateContent := fun _ p => Fulfilled (chat p);
     embedQuery := fun _ _ _ => Fulfilled [3; 1; 4];
     index_query := fun _ _ _ => Fulfilled hit |}.

(** The fourth request of the process, the answering call of the first
    turn, is rejected; everything else answers *)
Definition generation_down_once : World (list nat) :=
  {| generateContent := fun t p =>
       if t =? 3 then Rejected "503 Service Unavailable" else Fulfilled (chat p);
     embedQuery := fun _ _ _ => Fulfilled [3; 1; 4];
     index_query := fun _ _ _ => Fulfilled hit |}.

(** The chat model rejects every request *)
Definition chat_down : World (list nat) :=
  {| generateContent := fun _ _ => Rejected "503 Service Unavailable";
     embedQuery := fun _ _ _ => Fulfilled [3; 1; 4];
     index_query := fun _ _ _ => Fulfilled hit |}.

(** The embedding service rejects every request *)
Definition embedding_down : World (list nat) :=
  {| generateContent := fun _ p => Fulfilled (chat p);
     embedQuery := fun _ _ _ => Rejected "429 Too Many Requests";
     index_query := fun _ _ _ => Fulfilled hit |}.

(** The index has no match, and the chat model answers all the same *)
Definition nothing_found : World (list nat) :=
  {| generateContent := fun _ p => Fulfilled (chat p);
     embedQuery := fun _ _ _ => Fulfilled [3; 1; 4];
     index_query := fun _ _ _ => Fulfilled {| matches := [] |} |}.

Definition bst_document : Document :=
  {| pageContent := passage; source := "Dsa.pdf" |}.

(** A splitter that chunks every document by the scan of the chunker *)
Definition split_by_scan (p : RecursiveCharacterTextSplitterParams)
    (docs : list Document) : list Document :=
  flat_map
    (fun d =>
       match Chunker.chunk d (chunkSize p) (chunkOverlap p) with
       | inr cs =>
           map (fun c => {| pageContent := Chunker.chunk_text c;
                            source := Chunker.sourceId c |}) cs
       | inl _ => []
       end) docs.

(** A store client that files the [k]-th record under a new id *)
Definition numbered_ids : IngestWorld (list nat) :=
  {| pdf_load := fun _ => Fulfilled [bst_document];
     splitDocuments := split_by_scan;
     embedDocuments := fun _ texts => Fulfilled (map (fun _ => [3; 1; 4]) texts);
     assign_id := fun k _ => "row-" +:+ pretty k;
     store_upsert := fun _ _ _ _ => Fulfilled tt |}.

(** A store client that files a record under an id made of its source
    and its text *)
Definition ids_by_content : IngestWorld (list nat) :=
  {| pdf_load := fun _ => Fulfilled [bst_document];
     splitDocuments := split_by_scan;
     embedDocuments := fun _ texts => Fulfilled (map (fun _ => [3; 1; 4]) texts);
     assign_id := fun _ d => source d +:+ "#" +:+ pageContent d;
     store_upsert := fun _ _ _ _ => Fulfilled tt |}.

Definition two_pages : list Document :=
  [ {| pageContent := "Stacks are last in, first out."; source := "Dsa.pdf" |};
    {| pageContent := "Queues are first in, first out."; source := "Dsa.pdf" |} ].

(** A store that accepts the first record it is sent and rejects the rest *)
Definition store_down_after_one : IngestWorld (list nat) :=
  {| pdf_load := fun _ => Fulfilled two_pages;
     splitDocuments := split_by_scan;
     embedDocuments := fun _ texts => Fulfilled (map (fun _ => [3; 1; 4]) texts);
     assign_id := fun k _ => "row-" +:+ pretty k;
     store_upsert := fun k _ _ _ =>
       if k =? 0 then Fulfilled tt else Rejected "503 Service Unavailable" |}.

(** The fifth request of the process, the rewriting call of the second
    turn, is rejected; everything else answers *)
Definition rewrite_down_in_second_turn : World (list nat) :=
  {| generateContent := fun t p =>
       if t =? 4 then Rejected "503 Service Unavailable" else Fulfilled (chat p);
     embedQuery := fun _ _ _ => Fulfilled [3; 1; 4];
     index_query := fun _ _ _ => Fulfilled hit |}.

End Scenario.

(** * Facts about the query phase *)

Section QueryFacts.
Context {Vec : Type} (w : World Vec) (env : Env).

Local Abbreviation rewriting q s := (rewrite_request (provisional q s)).
Local Abbreviation answering q' ctx s := (answer_request (provisional q' s) ctx).
Local Abbreviation embedding := (query_embeddingModel env).
Local Abbreviation index := (PINECONE_INDEX_NAME env).

(** Run the turn up to its next request, then use what the service said. *)
Ltac run_chatting :=
  unfold ai_generateContent, History_push, History_get,
    console_log, await, tick, emit, provisional in *;
  unfold bind; cbn [History clock log fst snd].

Ltac settle H := rewrite H; cbn [History clock log fst snd].

Lemma transformQuery_rejected q s e :
  generateContent w (clock s) (rewrite_request (provisional q s)) = Rejected e ->
  transformQuery w q s =
    (Thrown e,
     {| History := provisional q s;
        clock := S (clock s);
        log := log s ++ [EvPush (user_turn q);
                         EvGenerate (rewrite_request (provisional q s))] |}).
Proof.
  intros Hgen.
  unfold transformQuery, ai_generateContent, bind, History_push, History_get,
    await, tick, emit, provisional in *; simpl.
  rewrite Hgen; simpl. by rewrite <- app_assoc.
Qed.

Lemma transformQuery_fulfilled q s r :
  generateContent w (clock s) (rewrite_request (provisional q s)) = Fulfilled r ->
  transformQuery w q s =
    (Returned (response_text r),
     {| History := History s;
        clock := S (clock s);
        log := log s ++ [EvPush (user_turn q);
                         EvGenerate (rewrite_request (provisional q s));
                         EvPop] |}).
Proof.
  intros Hgen.
  unfold transformQuery, ai_generateContent, bind, History_push, History_get,
    History_pop, await, tick, emit, ret, provisional in *; simpl.
  rewrite Hgen; simpl.
  rewrite removelast_last. by rewrite <- !app_assoc.
Qed.

Lemma chatting_rewrite_rejected q s e :
  generateContent w (clock s) (rewriting q s) = Rejected e ->
  chatting w env q s =
    (Thrown e,
     {| History := provisional q s;
        clock := S (clock s);
        log := log s ++ [EvPush (user_turn q); EvGenerate (rewriting q s)] |}).
Proof.
  intros Hgen. unfold chatting, bind.
  by rewrite (transformQuery_rejected q s e Hgen).
Qed.

Lemma chatting_embed_rejected q s r e :
  generateContent w (clock s) (rewriting q s) = Fulfilled r ->
  embedQuery w (S (clock s)) embedding (response_text r) = Rejected e ->
  chatting w env q s =
    (Thrown e,
     {| History := History s;
        clock := S (S (clock s));
        log := log s ++ [EvPush (user_turn q); EvGenerate (rewriting q s); EvPop;
                         EvEmbed embedding (response_text r)] |}).
Proof.
  intros Hgen Hemb. unfold chatting, bind at 1.
  rewrite (transformQuery_fulfilled q s r Hgen).
  run_chatting. settle Hemb. by rewrite <- !app_assoc.
Qed.

Lemma chatting_query_rejected q s r v e :
  generateContent w (clock s) (rewriting q s) = Fulfilled r ->
  embedQuery w (S (clock s)) embedding (response_text r) = Fulfilled v ->
  index_query w (S (S (clock s))) index (query_options v) = Rejected e ->
  chatting w env q s =
    (Thrown e,
     {| History := History s;
        clock := S (S (S (clock s)));
        log := log s ++ [EvPush (user_turn q); EvGenerate (rewriting q s); EvPop;
                         EvEmbed embedding (response_text r);
                         EvQuery index (query_options v)] |}).
Proof.
  intros Hgen Hemb Hqry. unfold chatting, bind at 1.
  rewrite (transformQuery_fulfilled q s r Hgen).
  run_chatting. settle Hemb. settle Hqry. by rewrite <- !app_assoc.
Qed.

Lemma chatting_generate_rejected q s r v found e :
  generateContent w (clock s) (rewriting q s) = Fulfilled r ->
  embedQuery w (S (clock s)) embedding (response_text r) = Fulfilled v ->
  index_query w (S (S (clock s))) index (query_options v) = Fulfilled found ->
  generateContent w (S (S (S (clock s))))
    (answering (response_text r) (build_context found) s) = Rejected e ->
  chatting w env q s =
    (Thrown e,
     {| History := provisional (response_text r) s;
        clock := S (S (S (S (clock s))));
        log := log s ++ [EvPush (user_turn q); EvGenerate (rewriting q s); EvPop;
                         EvEmbed embedding (response_text r);
                         EvQuery index (query_options v);
                         EvPush (user_turn (response_text r));
                         EvGenerate (answering (response_text r)
                                       (build_context found) s)] |}).
Proof.
  intros Hgen Hemb Hqry Hans. unfold chatting, bind at 1.
  rewrite (transformQuery_fulfilled q s r Hgen).
  run_chatting. settle Hemb. settle Hqry. settle Hans.
  by rewrite <- !app_assoc.
Qed.

Lemma chatting_returned q s r v found a :
  generateContent w (clock s) (rewriting q s) = Fulfilled r ->
  embedQuery w (S (clock s)) embedding (response_text r) = Fulfilled v ->
  index_query w (S (S (clock s))) index (query_options v) = Fulfilled found ->
  generateContent w (S (S (S (clock s))))
    (answering (response_text r) (build_context found) s) = Fulfilled a ->
  chatting w env q s =
    (Returned tt,
     {| History := History s ++ [user_turn (response_text r);
                                 model_turn (response_text a)];
        clock := S (S (S (S (clock s))));
        log := log s ++ [EvPush (user_turn q); EvGenerate (rewriting q s); EvPop;
                         EvEmbed embedding (response_text r);
                         EvQuery index (query_options v);
                         EvPush (user_turn (response_text r));
                         EvGenerate (answering (response_text r)
                                       (build_context found) s);
                         EvPush (model_turn (response_text a));
                         EvLog newline;
                         EvLog (response_text a)] |}).
Proof.
  intros Hgen Hemb Hqry Hans. unfold chatting, bind at 1.
  rewrite (transformQuery_fulfilled q s r Hgen).
  run_chatting. settle Hemb. settle Hqry. settle Hans.
  by rewrite <- !app_assoc.
Qed.

Lemma last_generate_app (l l' : list (Event Vec)) :
  last_generate (l ++ l') =
    match last_generate l' with
    | Some p => Some p
    | None => last_generate l
    end.
Proof.
  induction l as [|ev l IH]; simpl.
  - by destruct (last_generate l').
  - rewrite IH. by destruct (last_generate l').
Qed.

(** A turn that returns went through all four requests. *)
Lemma chatting_returned_inv q s u s' :
  chatting w env q s = (Returned u, s') ->
  exists r a,
    History s' = History s ++ [user_turn (response_text r);
                               model_turn (response_text a)].
Proof.
  intros Hrun.
  destruct (generateContent w (clock s) (rewriting q s)) as [r|e] eqn:Hgen.
  2: { rewrite (chatting_rewrite_rejected _ _ _ Hgen) in Hrun. discriminate. }
  destruct (embedQuery w (S (clock s)) embedding (response_text r))
    as [v|e] eqn:Hemb.
  2: { rewrite (chatting_embed_rejected _ _ _ _ Hgen Hemb) in Hrun. discriminate. }
  destruct (index_query w (S (S (clock s))) index (query_options v))
    as [found|e] eqn:Hqry.
  2: { rewrite (chatting_query_rejected _ _ _ _ _ Hgen Hemb Hqry) in Hrun.
       discriminate. }
  destruct (generateContent w (S (S (S (clock s))))
              (answering (response_text r) (build_context found) s))
    as [a|e] eqn:Hans.
  2: { rewrite (chatting_generate_rejected _ _ _ _ _ _ Hgen Hemb Hqry Hans) in Hrun.
       discriminate. }
  rewrite (chatting_returned _ _ _ _ _ _ Hgen Hemb Hqry Hans) in Hrun.
  exists r, a. by inversion Hrun.
Qed.

(** Every embedding request of a turn is made with [embedding]. *)
Lemma chatting_embed_requests q s p t :
  EvEmbed p t ∈ log (chatting w env q s).2 ->
  EvEmbed p t ∈ log s \/ p = embedding.
Proof.
  destruct (generateContent w (clock s) (rewriting q s)) as [r|e] eqn:Hgen.
  2: { rewrite (chatting_rewrite_rejected _ _ _ Hgen). cbn [snd log].
       rewrite elem_of_app, !elem_of_cons, elem_of_nil. naive_solver. }
  destruct (embedQuery w (S (clock s)) embedding (response_text r))
    as [v|e] eqn:Hemb.
  2: { rewrite (chatting_embed_rejected _ _ _ _ Hgen Hemb). cbn [snd log].
       rewrite elem_of_app, !elem_of_cons, elem_of_nil. naive_solver. }
  destruct (index_query w (S (S (clock s))) index (query_options v))
    as [found|e] eqn:Hqry.
  2: { rewrite (chatting_query_rejected _ _ _ _ _ Hgen Hemb Hqry). cbn [snd log].
       rewrite elem_of_app, !elem_of_cons, elem_of_nil. naive_solver. }
  destruct (generateContent w (S (S (S (clock s))))
              (answering (response_text r) (build_context found) s))
    as [a|e] eqn:Hans.
  2: { rewrite (chatting_generate_rejected _ _ _ _ _ _ Hgen Hemb Hqry Hans).
       cbn [snd log].
       rewrite elem_of_app, !elem_of_cons, elem_of_nil. naive_solver. }
  rewrite (chatting_returned _ _ _ _ _ _ Hgen Hemb Hqry Hans). cbn [snd log].
  rewrite elem_of_app, !elem_of_cons, elem_of_nil. naive_solver.
Qed.

Lemma main_cons q rest s :
  main w env (q :: rest) s =
    match chatting w env q (asked "Ask me anything --> " s) with
    | (Returned _, s') => main w env rest s'
    | (Thrown e, s') => (Thrown e, s')
    end.
Proof. reflexivity. Qed.

(** The prompt reached after [N] turns holds two entries per turn. *)
Lemma prompts_history_length input : forall s0 N s,
  prompts w env input s0 !! N = Some s ->
  length (History s) = length (History s0) + 2 * N.
Proof.
  induction input as [|q rest IH]; intros s0 N s Hat.
  - destruct N as [|N]; simpl in Hat; [|done].
    inversion Hat; subst. lia.
  - destruct N as [|N]; simpl in Hat.
    + inversion Hat; subst. lia.
    + destruct (chatting w env q (asked _ s0)) as [[u|e] s1] eqn:Hrun; [|done].
      destruct (chatting_returned_inv _ _ _ _ Hrun) as (r & a & HH).
      rewrite (IH _ _ _ Hat), HH, length_app. simpl. lia.
Qed.

(** ... and these entries are the turns of the exchanges completed so far. *)
Lemma prompts_history_exchanges input : forall s0 N s past,
  History s0 = exchange_turns past ->
  prompts w env input s0 !! N = Some s ->
  exists more,
    length more = N /\ History s = exchange_turns (past ++ more).
Proof.
  induction input as [|q rest IH]; intros s0 N s past Hpast Hat.
  - destruct N as [|N]; simpl in Hat; [|done].
    inversion Hat; subst. exists []. by rewrite app_nil_r.
  - destruct N as [|N]; simpl in Hat.
    + inversion Hat; subst. exists []. by rewrite app_nil_r.
    + destruct (chatting w env q (asked _ s0)) as [[u|e] s1] eqn:Hrun; [|done].
      destruct (chatting_returned_inv _ _ _ _ Hrun) as (r & a & HH).
      cbn [asked emit History] in HH.
      destruct (IH s1 N s (past ++ [(response_text r, response_text a)]))
        as (more & Hlen & Hs); [|exact Hat|].
      * rewrite HH, Hpast. unfold exchange_turns.
        by rewrite flat_map_app.
      * exists ((response_text r, response_text a) :: more).
        split; [simpl; lia|]. by rewrite Hs, <- app_assoc.
Qed.

(** [main] returns exactly when every line of input got its turn, and then
    it waits at its last prompt. *)
Lemma main_returned_prompt input : forall s0 s,
  main w env input s0 = (Returned tt, s) ->
  exists s', prompts w env input s0 !! length input = Some s' /\
             s = asked "Ask me anything --> " s'.
Proof.
  induction input as [|q rest IH]; intros s0 s Hmain.
  - exists s0. split; [done|]. by inversion Hmain.
  - rewrite main_cons in Hmain. simpl.
    destruct (chatting w env q (asked _ s0)) as [[u|e] s1] eqn:Hrun; [|done].
    by apply IH.
Qed.

(** After a rejected turn [main] prompts no more. *)
Lemma prompts_stop_at_rejection q rest s e s' :
  chatting w env q (asked "Ask me anything --> " s) = (Thrown e, s') ->
  prompts w env (q :: rest) s = [s] /\
  main w env (q :: rest) s = (Thrown e, s').
Proof. intros Hrun. rewrite main_cons. simpl. by rewrite Hrun. Qed.
End QueryFacts.

(** * The query phase: claims *)

(** C1, as stated, fails: when the answering call is rejected the rewritten
    query has already been pushed, so [History] is one entry longer than
    before the turn. *)
Lemma C1_rejected_generation_leaves_user_turn :
  exists s',
    generateContent Scenario.generation_down_once 3
      (answer_request [user_turn Scenario.standalone]
         (build_context Scenario.hit))
      = Rejected "503 Service Unavailable" /\
    chatting Scenario.generation_down_once Scenario.env Scenario.question
      (initial (list nat)) = (Thrown "503 Service Unavailable", s') /\
    History (initial (list nat)) = [] /\
    History s' = [user_turn Scenario.standalone] /\
    History s' <> History (initial (list nat)).
Proof.
  eexists. split; [reflexivity|]. split; [vm_compute; reflexivity|].
  split; [reflexivity|]. split; [reflexivity|]. discriminate.
Qed.

(** C1, amended: if the answering [generateContent] call is rejected, the
    turn throws, and [History] afterwards is [History] as it was before the
    turn followed by one user turn holding the rewritten query, so it is one
    entry longer; the exception also ends [main], which reads no further
    input. *)
Theorem C1_rejected_generation_History
    {Vec : Type} (w : World Vec) (env : Env) (q : string) (rest : list string)
    (s : State Vec) r v found e :
  generateContent w (clock s) (rewrite_request (provisional q s)) = Fulfilled r ->
  embedQuery w (S (clock s)) (query_embeddingModel env) (response_text r)
    = Fulfilled v ->
  index_query w (S (S (clock s))) (PINECONE_INDEX_NAME env) (query_options v)
    = Fulfilled found ->
  generateContent w (S (S (S (clock s))))
    (answer_request (provisional (response_text r) s) (build_context found))
    = Rejected e ->
  exists s' s'',
    chatting w env q s = (Thrown e, s') /\
    History s' = History s ++ [user_turn (response_text r)] /\
    length (History s') = S (length (History s)) /\
    main w env (q :: rest) s = (Thrown e, s'') /\
    History s'' = History s'.
Proof.
  intros Hgen Hemb Hqry Hans.
  pose proof (chatting_generate_rejected w env q s r v found e Hgen Hemb Hqry Hans)
    as Hrun.
  pose proof (chatting_generate_rejected w env q (asked "Ask me anything --> " s)
                r v found e Hgen Hemb Hqry Hans) as Hrun'.
  eexists. eexists. split; [exact Hrun|]. cbn [History]. unfold provisional.
  split; [reflexivity|]. split.
  - rewrite length_app. simpl. lia.
  - split.
    + by apply (prompts_stop_at_rejection w env q rest s e _ Hrun').
    + reflexivity.
Qed.

Lemma C1_rejected_generation_History_witness :
  exists s' s'',
    chatting Scenario.generation_down_once Scenario.env Scenario.question
      (initial (list nat)) = (Thrown "503 Service Unavailable", s') /\
    History s' = [] ++ [user_turn Scenario.standalone] /\
    length (History s') = 1 /\
    main Scenario.generation_down_once Scenario.env
      [Scenario.question; Scenario.question] (initial (list nat))
      = (Thrown "503 Service Unavailable", s'') /\
    History s'' = History s'.
Proof.
  apply (C1_rejected_generation_History Scenario.generation_down_once
           Scenario.env Scenario.question [Scenario.question]
           (initial (list nat)) (Scenario.chat (rewrite_request
              (provisional Scenario.question (initial (list nat)))))
           [3; 1; 4] Scenario.hit "503 Service Unavailable");
    reflexivity.
Defined.

(** C3, as stated, fails: when the rewriting call is rejected,
    [transformQuery] throws before [History.pop()], and the provisional turn
    stays in [History]. *)
Lemma C3_rejected_rewrite_keeps_provisional_turn :
  exists s',
    transformQuery Scenario.chat_down Scenario.question (initial (list nat))
      = (Thrown "503 Service Unavailable", s') /\
    History s' = [user_turn Scenario.question] /\
    History s' <> History (initial (list nat)).
Proof.
  eexists. split; [vm_compute; reflexivity|]. split; [reflexivity|]. discriminate.
Qed.

(** C3, amended: for every invocation of [transformQuery] whose model call
    is fulfilled, [History] after the call equals [History] before it: the
    provisional user turn is pushed, the model sees the history that ends
    with it, and the turn is popped; the only output is the text of the
    model's response. *)
Theorem C3_fulfilled_rewrite_restores_History
    {Vec : Type} (w : World Vec) (q : string) (s : State Vec) r :
  generateContent w (clock s) (rewrite_request (provisional q s)) = Fulfilled r ->
  exists s',
    transformQuery w q s = (Returned (response_text r), s') /\
    History s' = History s /\
    log s' = log s ++ [EvPush (user_turn q);
                       EvGenerate (rewrite_request (History s ++ [user_turn q]));
                       EvPop].
Proof.
  intros Hgen. eexists. split; [exact (transformQuery_fulfilled w q s r Hgen)|].
  split; reflexivity.
Qed.

Lemma C3_fulfilled_rewrite_restores_History_witness :
  exists s',
    transformQuery Scenario.healthy Scenario.question (initial (list nat))
      = (Returned Scenario.standalone, s') /\
    History s' = [] /\
    log s' = [] ++ [EvPush (user_turn Scenario.question);
                    EvGenerate (rewrite_request ([] ++ [user_turn Scenario.question]));
                    EvPop].
Proof.
  apply (C3_fulfilled_rewrite_restores_History Scenario.healthy
           Scenario.question (initial (list nat))
           (Scenario.chat (rewrite_request
              (provisional Scenario.question (initial (list nat)))))).
  reflexivity.
Defined.

(** C4, as stated, fails: with no match in the index the turn still asks
    the chat model, and the answer is whatever the model says; here it is
    not the fallback sentence. *)
Lemma C4_no_match_answer_is_the_model_reply :
  exists s',
    index_query Scenario.nothing_found 2 (PINECONE_INDEX_NAME Scenario.env)
      (query_options [3; 1; 4]) = Fulfilled {| matches := [] |} /\
    chatting Scenario.nothing_found Scenario.env Scenario.question
      (initial (list nat)) = (Returned tt, s') /\
    answer_text s' = Some Scenario.reply /\
    Scenario.reply <> fallback.
Proof.
  eexists. split; [reflexivity|]. split; [vm_compute; reflexivity|].
  split; [reflexivity|]. discriminate.
Qed.

(** C4, amended: for every query whose retrieval returns no match, the
    context is the empty string and the answering call is made as for any
    other query, under a system instruction that quotes the fallback
    sentence; the answer is the text of the model's response whatever it is
    (so it is the fallback sentence exactly when the model returns it), and
    the turn throws if that call is rejected. *)
Theorem C4_no_match_answer
    {Vec : Type} (w : World Vec) (env : Env) (q : string) (s : State Vec)
    r v found :
  generateContent w (clock s) (rewrite_request (provisional q s)) = Fulfilled r ->
  embedQuery w (S (clock s)) (query_embeddingModel env) (response_text r)
    = Fulfilled v ->
  index_query w (S (S (clock s))) (PINECONE_INDEX_NAME env) (query_options v)
    = Fulfilled found ->
  matches found = [] ->
  let request := answer_request (provisional (response_text r) s) "" in
  build_context found = "" /\
  (exists pre post,
     systemInstruction (config request)
       = pre +:+ dquote +:+ fallback +:+ dquote +:+ post) /\
  (forall a,
     generateContent w (S (S (S (clock s)))) request = Fulfilled a ->
     exists s',
       chatting w env q s = (Returned tt, s') /\
       last_generate (log s') = Some request /\
       answer_text s' = Some (response_text a)) /\
  (forall e,
     generateContent w (S (S (S (clock s)))) request = Rejected e ->
     exists s', chatting w env q s = (Thrown e, s')).
Proof.
  intros Hgen Hemb Hqry Hnone request.
  assert (Hctx : build_context found = "").
  { unfold build_context. by rewrite Hnone. }
  split; [exact Hctx|]. split.
  { exists (String.substring 0 277 (answer_instruction "")),
           (String.substring 332 85 (answer_instruction "")).
    vm_compute. reflexivity. }
  split.
  - intros a Hans. subst request. rewrite <- Hctx in Hans.
    eexists. split.
    + exact (chatting_returned w env q s r v found a Hgen Hemb Hqry Hans).
    + cbn [History log]. rewrite Hctx. split.
      * by rewrite last_generate_app.
      * unfold answer_text. cbn [History].
        change (History s ++ [user_turn (response_text r); model_turn (response_text a)])
          with (History s ++ [user_turn (response_text r)] ++ [model_turn (response_text a)]).
        by rewrite app_assoc, last_snoc.
  - intros e Hans. subst request. rewrite <- Hctx in Hans.
    eexists. exact (chatting_generate_rejected w env q s r v found e Hgen Hemb Hqry Hans).
Qed.

Lemma C4_no_match_answer_witness :
  let request := answer_request [user_turn Scenario.standalone] "" in
  build_context {| matches := [] |} = "" /\
  (exists pre post,
     systemInstruction (config request)
       = pre +:+ dquote +:+ fallback +:+ dquote +:+ post) /\
  (forall a,
     generateContent Scenario.nothing_found 3 request = Fulfilled a ->
     exists s',
       chatting Scenario.nothing_found Scenario.env Scenario.question
         (initial (list nat)) = (Returned tt, s') /\
       last_generate (log s') = Some request /\
       answer_text s' = Some (response_text a)) /\
  (forall e,
     generateContent Scenario.nothing_found 3 request = Rejected e ->
     exists s',
       chatting Scenario.nothing_found Scenario.env Scenario.question
         (initial (list nat)) = (Thrown e, s')).
Proof.
  apply (C4_no_match_answer Scenario.nothing_found Scenario.env
           Scenario.question (initial (list nat))
           (Scenario.chat (rewrite_request
              (provisional Scenario.question (initial (list nat)))))
           [3; 1; 4] {| matches := [] |});
    reflexivity.
Defined.

(** C9, as stated, fails: the user turn is appended before the answering
    call, not after it.  In this run the push is event 5 of the turn and
    the call is event 6, and the history the call is given already ends
    with the user turn. *)
Lemma C9_user_turn_pushed_before_generation :
  exists s' request,
    chatting Scenario.healthy Scenario.env Scenario.question
      (initial (list nat)) = (Returned tt, s') /\
    log s' !! 5 = Some (EvPush (user_turn Scenario.standalone)) /\
    log s' !! 6 = Some (EvGenerate request) /\
    last_generate (log s') = Some request /\
    contents request = [user_turn Scenario.standalone] /\
    contents request <> History (initial (list nat)).
Proof.
  eexists. eexists. split; [vm_compute; reflexivity|].
  split; [reflexivity|]. split; [reflexivity|]. split; [reflexivity|].
  split; [reflexivity|]. discriminate.
Qed.

(** C9, amended: for every successfully completed turn, [History] gains a
    user turn holding the rewritten standalone query (the text of the
    rewriting response, not the raw utterance) followed by a model turn
    holding the generated response; the user turn is appended before the
    answering call, which is given the history that ends with it, and the
    model turn is appended after the call. *)
Theorem C9_completed_turn_appends
    {Vec : Type} (w : World Vec) (env : Env) (q : string) (s : State Vec)
    r v found a :
  generateContent w (clock s) (rewrite_request (provisional q s)) = Fulfilled r ->
  embedQuery w (S (clock s)) (query_embeddingModel env) (response_text r)
    = Fulfilled v ->
  index_query w (S (S (clock s))) (PINECONE_INDEX_NAME env) (query_options v)
    = Fulfilled found ->
  generateContent w (S (S (S (clock s))))
    (answer_request (provisional (response_text r) s) (build_context found))
    = Fulfilled a ->
  exists s',
    chatting w env q s = (Returned tt, s') /\
    History s' = History s ++ [user_turn (response_text r);
                               model_turn (response_text a)] /\
    log s' = log s ++
      [EvPush (user_turn q);
       EvGenerate (rewrite_request (History s ++ [user_turn q]));
       EvPop;
       EvEmbed (query_embeddingModel env) (response_text r);
       EvQuery (PINECONE_INDEX_NAME env) (query_options v);
       EvPush (user_turn (response_text r));
       EvGenerate (answer_request (History s ++ [user_turn (response_text r)])
                     (build_context found));
       EvPush (model_turn (response_text a));
       EvLog newline;
       EvLog (response_text a)].
Proof.
  intros Hgen Hemb Hqry Hans. eexists. split.
  - exact (chatting_returned w env q s r v found a Hgen Hemb Hqry Hans).
  - split; reflexivity.
Qed.

Lemma C9_completed_turn_appends_witness :
  exists s',
    chatting Scenario.healthy Scenario.env Scenario.question
      (initial (list nat)) = (Returned tt, s') /\
    History s' = [user_turn Scenario.standalone; model_turn Scenario.reply].
Proof.
  destruct (C9_completed_turn_appends Scenario.healthy Scenario.env
              Scenario.question (initial (list nat))
              (Scenario.chat (rewrite_request
                 (provisional Scenario.question (initial (list nat)))))
              [3; 1; 4] Scenario.hit
              (Scenario.chat (answer_request
                 (provisional Scenario.standalone (initial (list nat)))
                 (build_context Scenario.hit))))
    as (s' & Hrun & HH & _); try reflexivity.
  exists s'. split; [exact Hrun|exact HH].
Defined.

(** C10: when the rewriting call is fulfilled and then the query-embedding
    call or the index query is rejected, the turn throws with [History]
    exactly as it was before the turn: after the pop that ends the rewrite
    step the turn has only issued requests to the embedding service and the
    index, and has not written to [History]. *)
Theorem C10_rejected_lookup_keeps_History
    {Vec : Type} (w : World Vec) (env : Env) (q : string) (s : State Vec) r e :
  generateContent w (clock s) (rewrite_request (provisional q s)) = Fulfilled r ->
  embedQuery w (S (clock s)) (query_embeddingModel env) (response_text r)
    = Rejected e \/
  (exists v,
     embedQuery w (S (clock s)) (query_embeddingModel env) (response_text r)
       = Fulfilled v /\
     index_query w (S (S (clock s))) (PINECONE_INDEX_NAME env) (query_options v)
       = Rejected e) ->
  exists s' lookups,
    chatting w env q s = (Thrown e, s') /\
    History s' = History s /\
    log s' = log s ++ [EvPush (user_turn q);
                       EvGenerate (rewrite_request (History s ++ [user_turn q]));
                       EvPop] ++ lookups /\
    Forall is_lookup lookups /\
    Forall (fun ev => ~ writes_History ev) lookups.
Proof.
  intros Hgen [Hemb | (v & Hemb & Hqry)].
  - eexists. exists [EvEmbed (query_embeddingModel env) (response_text r)].
    split; [exact (chatting_embed_rejected w env q s r e Hgen Hemb)|].
    repeat split; repeat constructor; simpl; tauto.
  - eexists.
    exists [EvEmbed (query_embeddingModel env) (response_text r);
            EvQuery (PINECONE_INDEX_NAME env) (query_options v)].
    split; [exact (chatting_query_rejected w env q s r v e Hgen Hemb Hqry)|].
    repeat split; repeat constructor; simpl; tauto.
Qed.

Lemma C10_rejected_lookup_keeps_History_witness :
  exists s' lookups,
    chatting Scenario.embedding_down Scenario.env Scenario.question
      (initial (list nat)) = (Thrown "429 Too Many Requests", s') /\
    History s' = [] /\
    log s' = [] ++ [EvPush (user_turn Scenario.question);
                    EvGenerate (rewrite_request ([] ++ [user_turn Scenario.question]));
                    EvPop] ++ lookups /\
    Forall is_lookup lookups /\
    Forall (fun ev => ~ writes_History ev) lookups.
Proof.
  apply (C10_rejected_lookup_keeps_History Scenario.embedding_down
           Scenario.env Scenario.question (initial (list nat))
           (Scenario.chat (rewrite_request
              (provisional Scenario.question (initial (list nat)))))
           "429 Too Many Requests").
  - reflexivity.
  - left. reflexivity.
Defined.

(** * The ingestion phase *)

Section IngestionFacts.
Context {Vec : Type} (iw : IngestWorld Vec) (env : Env).

Lemma ids_from_app n docs docs' :
  ids_from iw n (docs ++ docs') =
    ids_from iw n docs ++ ids_from iw (n + length docs) docs'.
Proof.
  revert n. induction docs as [|d docs IH]; intros n; simpl.
  - by rewrite Nat.add_0_r.
  - rewrite IH. do 3 f_equal. lia.
Qed.

Lemma length_ids_from n docs : length (ids_from iw n docs) = length docs.
Proof. revert n. induction docs; intros; simpl; by f_equal. Qed.

(** Upserting a batch files one row under each id handed out for it. *)
Lemma foldl_upsert_dom (dvs : list (Document * Vec)) : forall ix,
  dom (rows (foldl (upsert iw) ix dvs)) =
    dom (rows ix) ∪ list_to_set (ids_from iw (issued ix) dvs.*1) /\
  issued (foldl (upsert iw) ix dvs) = issued ix + length dvs.
Proof.
  induction dvs as [|[d v] dvs IH]; intros ix.
  - simpl. split; [set_solver | lia].
  - pose proof (IH (upsert iw ix (d, v))) as [Hdom Hn].
    change (foldl (upsert iw) ix ((d, v) :: dvs))
      with (foldl (upsert iw) (upsert iw ix (d, v)) dvs).
    rewrite Hdom, Hn. simpl. rewrite dom_insert_L.
    split; [set_solver | lia].
Qed.

(** Once the store has rejected a record the batch has failed. *)
Lemma store_row_failed dbConfig (dvs : list (Document * Vec)) : forall e ix,
  exists e', (foldl (store_row iw dbConfig) (Some e, ix) dvs).1 = Some e'.
Proof.
  induction dvs as [|[d v] dvs IH]; intros e ix; [by exists e|].
  simpl. destruct (store_upsert iw _ _ _ _); apply IH.
Qed.

(** A batch that did not fail has upserted every record. *)
Lemma store_rows_accepted dbConfig (dvs : list (Document * Vec)) : forall ix ix',
  foldl (store_row iw dbConfig) (None, ix) dvs = (None, ix') ->
  ix' = foldl (upsert iw) ix dvs.
Proof.
  induction dvs as [|[d v] dvs IH]; intros ix ix' Hrun.
  - by inversion Hrun.
  - change (foldl (upsert iw) ix ((d, v) :: dvs))
      with (foldl (upsert iw) (upsert iw ix (d, v)) dvs).
    simpl in Hrun.
    destruct (store_upsert iw _ _ _ _) as [u|e].
    + by apply IH.
    + destruct (store_row_failed dbConfig dvs e
                  {| rows := rows ix; issued := S (issued ix) |}) as (e' & He').
      simpl in He'. rewrite Hrun in He'. discriminate.
Qed.

(** A run of the script that returns, the loader and the embedding service
    having answered, has upserted every chunk. *)
Lemma saveDocumentIntoVectorDatabase_returned rawDocs vs ix u :
  pdf_load iw PDF_PATH = Fulfilled rawDocs ->
  embedDocuments iw (index_embeddingModel env)
    (map pageContent (splitDocuments iw textSplitter rawDocs)) = Fulfilled vs ->
  (saveDocumentIntoVectorDatabase iw env ix).1 = Returned u ->
  (saveDocumentIntoVectorDatabase iw env ix).2 =
    foldl (upsert iw) ix (zip (splitDocuments iw textSplitter rawDocs) vs).
Proof.
  unfold saveDocumentIntoVectorDatabase, PineconeStore_fromDocuments.
  intros -> ->.
  destruct (foldl _ _ _) as [[e|] ix'] eqn:Hrun; cbn [fst snd]; [done|].
  intros _. by apply (store_rows_accepted _ _ _ _ Hrun).
Qed.
End IngestionFacts.

(** C2, as stated, fails: [index.js] hands the chunks to the store without
    ids, and with a store client that files every record under a new id a
    second ingestion of the same document adds a second row. *)
Lemma C2_second_ingestion_adds_rows :
  let once := snd (saveDocumentIntoVectorDatabase Scenario.numbered_ids
                     Scenario.env (empty_index (list nat))) in
  let twice := snd (saveDocumentIntoVectorDatabase Scenario.numbered_ids
                      Scenario.env once) in
  size (rows once) = 1 /\ size (rows twice) = 2 /\
  size (rows twice) <> size (rows once).
Proof. vm_compute. repeat split; discriminate. Qed.

(** C2, amended: when the same document is ingested twice with the same
    parameters and both runs return (the loader, the embedding service and
    the store answering, one vector per chunk), the index holds one row per
    distinct id that the store client assigned over the two runs; the
    script passes the chunks, the embedding model, the index and
    [maxConcurrency] 5, and no id of its own.  So the index holds twice as
    many rows as after a single ingestion when the ids of the two runs are
    all different, and it holds as many as after a single ingestion exactly
    when every id assigned in the second run was already assigned in the
    first. *)
Theorem C2_rows_after_second_ingestion
    {Vec : Type} (iw : IngestWorld Vec) (env : Env) rawDocs vs :
  pdf_load iw PDF_PATH = Fulfilled rawDocs ->
  let chunkDocs := splitDocuments iw textSplitter rawDocs in
  embedDocuments iw (index_embeddingModel env) (map pageContent chunkDocs)
    = Fulfilled vs ->
  length vs = length chunkDocs ->
  let first := saveDocumentIntoVectorDatabase iw env (empty_index Vec) in
  let second := saveDocumentIntoVectorDatabase iw env first.2 in
  first.1 = Returned tt ->
  second.1 = Returned tt ->
  let once := first.2 in
  let twice := second.2 in
  let ids1 := ids_from iw 0 chunkDocs in
  let ids2 := ids_from iw (length chunkDocs) chunkDocs in
  dom (rows once) = list_to_set ids1 /\
  dom (rows twice) = list_to_set (ids1 ++ ids2) /\
  (NoDup (ids1 ++ ids2) ->
   size (rows once) = length chunkDocs /\
   size (rows twice) = 2 * length chunkDocs) /\
  (size (rows twice) = size (rows once) <->
   forall id, id ∈ ids2 -> id ∈ ids1).
Proof.
  intros Hload chunkDocs Hemb Hlen first second Hret1 Hret2 once twice ids1 ids2.
  assert (Hfst : (zip chunkDocs vs).*1 = chunkDocs) by (apply fst_zip; lia).
  assert (Hzip : length (zip chunkDocs vs) = length chunkDocs).
  { rewrite length_zip. lia. }
  assert (Honce : once = foldl (upsert iw) (empty_index Vec) (zip chunkDocs vs)).
  { subst once first.
    exact (saveDocumentIntoVectorDatabase_returned iw env rawDocs vs _ _
             Hload Hemb Hret1). }
  assert (Htwice : twice = foldl (upsert iw) once (zip chunkDocs vs)).
  { subst twice second.
    exact (saveDocumentIntoVectorDatabase_returned iw env rawDocs vs _ _
             Hload Hemb Hret2). }
  destruct (foldl_upsert_dom iw (zip chunkDocs vs) (empty_index Vec)) as [Hd1 Hn1].
  destruct (foldl_upsert_dom iw (zip chunkDocs vs) once) as [Hd2 Hn2].
  rewrite <- Honce in Hd1, Hn1. rewrite <- Htwice in Hd2, Hn2.
  rewrite Hfst in Hd1, Hd2. rewrite Hzip in Hn1. simpl in Hd1, Hn1.
  rewrite Hn1 in Hd2. fold ids1 in Hd1. fold ids2 in Hd2.
  assert (E1 : dom (rows once) = list_to_set ids1) by set_solver.
  assert (E2 : dom (rows twice) = list_to_set (ids1 ++ ids2)).
  { rewrite Hd2, E1. by rewrite list_to_set_app_L. }
  split; [exact E1|]. split; [exact E2|]. split.
  - intros Hnodup.
    rewrite <- !(size_dom (D := gset string)), E1, E2.
    rewrite !size_list_to_set; [|done|by apply NoDup_app in Hnodup as [? _]].
    rewrite length_app. subst ids1 ids2. rewrite !length_ids_from. lia.
  - rewrite <- !(size_dom (D := gset string)), E1, E2, list_to_set_app_L.
    rewrite size_union_alt. split.
    + intros Hsame id Hin.
      assert (size (list_to_set ids2 ∖ list_to_set ids1 : gset string) = 0)
        as Hnone%size_empty_iff by lia.
      set_solver.
    + intros Hsub.
      assert ((list_to_set ids2 ∖ list_to_set ids1 : gset string) = ∅)
        as -> by set_solver.
      rewrite size_empty. lia.
Qed.

Lemma C2_rows_after_second_ingestion_witness :
  let once := snd (saveDocumentIntoVectorDatabase Scenario.numbered_ids
                     Scenario.env (empty_index (list nat))) in
  let twice := snd (saveDocumentIntoVectorDatabase Scenario.numbered_ids
                      Scenario.env once) in
  size (rows once) = 1 /\ size (rows twice) = 2 * 1.
Proof.
  intros once twice.
  apply (C2_rows_after_second_ingestion Scenario.numbered_ids Scenario.env
           [Scenario.bst_document] [[3; 1; 4]]).
  - reflexivity.
  - reflexivity.
  - reflexivity.
  - reflexivity.
  - reflexivity.
  - compute_done.
Defined.

(** * The context assembler *)

Lemma append_cons ch (a b : string) : String ch a +:+ b = String ch (a +:+ b).
Proof. reflexivity. Qed.

Lemma append_assoc (a b c : string) : (a +:+ b) +:+ c = a +:+ b +:+ c.
Proof.
  induction a as [|ch a IH]; [reflexivity|].
  by rewrite !append_cons, IH.
Qed.

Lemma length_append (a b : string) :
  String.length (a +:+ b) = String.length a + String.length b.
Proof.
  induction a as [|ch a IH]; [reflexivity|].
  rewrite append_cons. simpl. by rewrite IH.
Qed.

Lemma join_cons_cons sep x y rest :
  join sep (x :: y :: rest) = x +:+ sep +:+ join sep (y :: rest).
Proof. reflexivity. Qed.

Lemma join_app sep x xs y ys :
  join sep ((x :: xs) ++ y :: ys) =
    join sep (x :: xs) +:+ sep +:+ join sep (y :: ys).
Proof.
  revert x. induction xs as [|x' xs IH]; intros x.
  - reflexivity.
  - change ((x :: x' :: xs) ++ y :: ys) with (x :: ((x' :: xs) ++ y :: ys)).
    change ((x' :: xs) ++ y :: ys) with (x' :: (xs ++ y :: ys)).
    rewrite !join_cons_cons.
    change (x' :: (xs ++ y :: ys)) with ((x' :: xs) ++ y :: ys).
    by rewrite IH, !append_assoc.
Qed.

Lemma join_concat sep xs : join sep xs = String.concat sep xs.
Proof.
  induction xs as [|x [|y rest] IH]; [reflexivity..|].
  by rewrite join_cons_cons, IH.
Qed.

(** The characters of all texts, plus one separator between neighbours *)
Lemma length_join sep xs :
  String.length (join sep xs) =
    sum_list (map String.length xs) + (length xs - 1) * String.length sep.
Proof.
  induction xs as [|x [|y rest] IH].
  - reflexivity.
  - simpl. lia.
  - rewrite join_cons_cons, !length_append, IH. simpl. lia.
Qed.

(** C8: the context is the texts of the matches, in the order given, with
    the one separator (a line of three dashes between blank lines) between
    neighbours: nothing for no match, the text itself for one match, and
    for more the first text, the separator, and the context of the rest.
    It is the same function of the sequence of texts as the library
    [String.concat], so equal inputs give equal contexts, and assembling
    two sequences side by side puts exactly one separator between them. *)
Theorem C8_build_context :
  build_context {| matches := [] |} = "" /\
  (forall m, build_context {| matches := [m] |} = metadata_text (metadata m)) /\
  (forall m m' ms,
     build_context {| matches := m :: m' :: ms |} =
       metadata_text (metadata m) +:+ separator
       +:+ build_context {| matches := m' :: ms |}) /\
  (forall found,
     build_context found =
       String.concat separator
         (map (fun m => metadata_text (metadata m)) (matches found))) /\
  (forall found,
     String.length (build_context found) =
       sum_list (map (fun m => String.length (metadata_text (metadata m)))
                     (matches found))
       + 7 * (length (matches found) - 1)) /\
  (forall m ms m' ms',
     build_context {| matches := (m :: ms) ++ m' :: ms' |} =
       build_context {| matches := m :: ms |} +:+ separator
       +:+ build_context {| matches := m' :: ms' |}).
Proof.
  split; [reflexivity|]. split; [reflexivity|]. split; [reflexivity|].
  split; [|split].
  - intros found. apply join_concat.
  - intros found. unfold build_context.
    rewrite length_join, length_map, map_map.
    change (String.length separator) with 7. lia.
  - intros m ms m' ms'. unfold build_context. cbn [matches].
    rewrite map_app. apply (join_app separator).
Qed.

(** * The chunker *)

Lemma length_substring (s : string) : forall n m,
  String.length (String.substring n m s) = Nat.min m (String.length s - n).
Proof.
  induction s as [|ch s IH]; intros n m.
  - destruct n, m; simpl; lia.
  - destruct n as [|n].
    + destruct m as [|m]; simpl; [lia|]. rewrite IH. lia.
    + simpl. apply IH.
Qed.

Section ChunkerFacts.
Context (text src : string) (size overlap : nat).
Hypothesis overlap_below_size : overlap < size.

(** What the scan emits: chunk [i] starts [i] strides after the start of
    the scan, inside the text, and is the slice of [size] characters
    there, cut at the end of the text. *)
Lemma scan_lookup fuel : forall off i c,
  Chunker.scan fuel text src size overlap off !! i = Some c ->
  Chunker.offset c = off + i * (size - overlap) /\
  Chunker.offset c < String.length text /\
  Chunker.chunk_text c = String.substring (Chunker.offset c) size text /\
  Chunker.length c = String.length (Chunker.chunk_text c) /\
  Chunker.sourceId c = src.
Proof.
  induction fuel as [|fuel IH]; intros off i c Hat; [done|].
  simpl in Hat.
  destruct (Nat.leb_spec (String.length text) off) as [Hstop|Hgo]; [done|].
  destruct i as [|i]; simpl in Hat.
  - inversion Hat; subst; clear Hat. simpl. repeat split; lia.
  - apply IH in Hat as (Hoff & Hin & Htxt & Hlen & Hsrc).
    repeat split; try done. lia.
Qed.

(** The scan is not cut short by its fuel: it ends at the first offset
    that is not inside the text. *)
Lemma scan_reaches_end fuel : forall off,
  String.length text - off <= fuel ->
  String.length text
    <= off + length (Chunker.scan fuel text src size overlap off) * (size - overlap).
Proof.
  induction fuel as [|fuel IH]; intros off Hfuel; simpl.
  - lia.
  - destruct (Nat.leb_spec (String.length text) off) as [Hstop|Hgo];
      simpl; [lia|].
    specialize (IH (off + size - overlap)). lia.
Qed.

(** More fuel than the text is long changes nothing. *)
Lemma scan_fuel_irrelevant fuel : forall fuel' off,
  String.length text - off <= fuel ->
  String.length text - off <= fuel' ->
  Chunker.scan fuel text src size overlap off
    = Chunker.scan fuel' text src size overlap off.
Proof.
  induction fuel as [|fuel IH]; intros fuel' off Hfuel Hfuel'.
  - destruct fuel' as [|fuel']; [done|]. simpl.
    destruct (Nat.leb_spec (String.length text) off); [done|lia].
  - destruct fuel' as [|fuel']; simpl;
      destruct (Nat.leb_spec (String.length text) off); try done; try lia.
    f_equal. apply IH; lia.
Qed.
End ChunkerFacts.

(** C6: for [overlap < chunkSize] (so [chunkSize > 0]) the chunker returns
    chunks, left to right: chunk [i] starts at offset
    [i * (chunkSize - overlap)], which is inside the text, and is
    [text[offset : offset+chunkSize]], so it is never empty and never longer
    than [chunkSize]; the first offset past the last chunk is at or beyond
    the end of the text.  For [overlap >= chunkSize] the operation fails
    with the configuration error and produces no chunk. *)
Theorem C6_chunk (document : Document) (size overlap : nat) :
  (size <= overlap ->
   Chunker.chunk document size overlap = inl Chunker.OverlapNotBelowChunkSize) /\
  (overlap < size ->
   exists chunks,
     Chunker.chunk document size overlap = inr chunks /\
     (forall i c, chunks !! i = Some c ->
        Chunker.offset c = i * (size - overlap) /\
        Chunker.offset c < String.length (pageContent document) /\
        Chunker.chunk_text c
          = String.substring (Chunker.offset c) size (pageContent document) /\
        1 <= String.length (Chunker.chunk_text c) <= size /\
        Chunker.length c = String.length (Chunker.chunk_text c) /\
        Chunker.sourceId c = source document) /\
     String.length (pageContent document)
       <= length chunks * (size - overlap)).
Proof.
  unfold Chunker.chunk. split; intros Hcfg.
  - by destruct (Nat.leb_spec size overlap); [|lia].
  - destruct (Nat.leb_spec size overlap) as [|_]; [lia|].
    eexists. split; [reflexivity|]. split.
    + intros i c Hat.
      apply (scan_lookup _ _ _ _ Hcfg) in Hat as (Hoff & Hin & Htxt & Hlen & Hsrc).
      repeat split; try done.
      * rewrite Htxt, length_substring. lia.
      * rewrite Htxt, length_substring. lia.
    + apply (scan_reaches_end _ _ _ _ Hcfg (String.length (pageContent document)) 0).
      lia.
Qed.

Lemma C6_chunk_witness :
  Chunker.chunk {| pageContent := "abc"; source := "Dsa.pdf" |} 2 2
    = inl Chunker.OverlapNotBelowChunkSize /\
  exists chunks,
    Chunker.chunk Scenario.bst_document 1000 200 = inr chunks /\
    (forall i c, chunks !! i = Some c ->
       Chunker.offset c = i * (1000 - 200) /\
       Chunker.offset c < String.length (pageContent Scenario.bst_document) /\
       Chunker.chunk_text c
         = String.substring (Chunker.offset c) 1000
             (pageContent Scenario.bst_document) /\
       1 <= String.length (Chunker.chunk_text c) <= 1000 /\
       Chunker.length c = String.length (Chunker.chunk_text c) /\
       Chunker.sourceId c = source Scenario.bst_document) /\
    String.length (pageContent Scenario.bst_document)
      <= length chunks * (1000 - 200).
Proof.
  split.
  - apply (C6_chunk {| pageContent := "abc"; source := "Dsa.pdf" |} 2 2). lia.
  - apply (C6_chunk Scenario.bst_document 1000 200). lia.
Defined.


(** * More about the query phase *)

Section TurnFacts.
Context {Vec : Type} (w : World Vec) (env : Env).

(** [chatting] goes one of the five ways of [turn]. *)
Lemma chatting_turn q s :
  exists o added n evs,
    turn w env q s o added n evs /\
    chatting w env q s =
      (o, {| History := History s ++ added;
             clock := n + clock s;
             log := log s ++ evs |}).
Proof.
  destruct (generateContent w (clock s) (rewrite_request (provisional q s)))
    as [r|e] eqn:Hgen.
  2: { eexists _, _, _, _. split; [by apply turn_rewrite_rejected|].
       by rewrite (chatting_rewrite_rejected _ _ _ _ _ Hgen). }
  destruct (embedQuery w (S (clock s)) (query_embeddingModel env) (response_text r))
    as [v|e] eqn:Hemb.
  2: { eexists _, _, _, _. split; [by eapply turn_embed_rejected|].
       rewrite (chatting_embed_rejected _ _ _ _ _ _ Hgen Hemb).
       by rewrite app_nil_r. }
  destruct (index_query w (S (S (clock s))) (PINECONE_INDEX_NAME env)
              (query_options v)) as [found|e] eqn:Hqry.
  2: { eexists _, _, _, _. split; [by eapply turn_query_rejected|].
       rewrite (chatting_query_rejected _ _ _ _ _ _ _ Hgen Hemb Hqry).
       by rewrite app_nil_r. }
  destruct (generateContent w (S (S (S (clock s))))
              (answer_request (provisional (response_text r) s)
                 (build_context found))) as [a|e] eqn:Hans.
  2: { eexists _, _, _, _. split; [by eapply turn_generate_rejected|].
       by rewrite (chatting_generate_rejected _ _ _ _ _ _ _ _ Hgen Hemb Hqry Hans). }
  eexists _, _, _, _. split; [by eapply turn_returned|].
  by rewrite (chatting_returned _ _ _ _ _ _ _ _ Hgen Hemb Hqry Hans).
Qed.

Lemma new_events_app (s : State Vec) H c evs :
  new_events s {| History := H; clock := c; log := log s ++ evs |} = evs.
Proof. unfold new_events. cbn [log]. by rewrite drop_app_length. Qed.

(** The contents of what the chat model is asked in a turn *)
Lemma chat_requests_contents q s :
  Forall (fun p => exists t, contents p = History s ++ [user_turn t])
         (generate_requests (new_events s (chatting w env q s).2)).
Proof.
  destruct (chatting_turn q s) as (o & added & n & evs & Hturn & Hrun).
  rewrite Hrun. cbn [snd]. rewrite new_events_app.
  destruct Hturn; cbn; repeat constructor; unfold provisional; eauto.
Qed.
End TurnFacts.

(** X1: when the rewriting call is rejected, [transformQuery] throws the
    error of the service after that single request, and the raw utterance
    is left as a user turn at the end of [History]. *)
Theorem X1_transformQuery_rejected
    {Vec : Type} (w : World Vec) (q : string) (s : State Vec) e :
  generateContent w (clock s) (rewrite_request (History s ++ [user_turn q]))
    = Rejected e ->
  exists s',
    transformQuery w q s = (Thrown e, s') /\
    History s' = History s ++ [user_turn q] /\
    last (History s') = Some (user_turn q) /\
    clock s' = S (clock s) /\
    count_requests (new_events s s') = 1.
Proof.
  intros Hgen. eexists. split; [exact (transformQuery_rejected w q s e Hgen)|].
  cbn [History clock]. unfold provisional.
  split; [done|]. split; [by rewrite last_snoc|]. split; [done|].
  by rewrite new_events_app.
Qed.

Lemma X1_transformQuery_rejected_witness :
  exists s',
    transformQuery Scenario.chat_down Scenario.question (initial (list nat))
      = (Thrown "503 Service Unavailable", s') /\
    History s' = [] ++ [user_turn Scenario.question] /\
    last (History s') = Some (user_turn Scenario.question) /\
    clock s' = 1 /\
    count_requests (new_events (initial (list nat)) s') = 1.
Proof.
  apply (X1_transformQuery_rejected Scenario.chat_down Scenario.question
           (initial (list nat)) "503 Service Unavailable").
  reflexivity.
Defined.

(** X2: whatever the services do, a turn only appends to [History]: the
    turns that were there stay as they were, at most two are added, and
    every added one is a user turn or a model turn with a single text
    part. *)
Theorem X2_chatting_History_only_grows
    {Vec : Type} (w : World Vec) (env : Env) (q : string) (s : State Vec) :
  let s' := (chatting w env q s).2 in
  History s `prefix_of` History s' /\
  length (History s') <= length (History s) + 2 /\
  Forall (fun c => exists t, c = user_turn t \/ c = model_turn t)
         (drop (length (History s)) (History s')).
Proof.
  destruct (chatting_turn w env q s) as (o & added & n & evs & Hturn & Hrun).
  rewrite Hrun. cbn [snd History]. split; [by exists added|].
  rewrite length_app, drop_app_length.
  destruct Hturn; simpl; (split; [lia|]); repeat constructor; eauto.
Qed.

(** X3: a turn prints exactly when it returns.  Then it prints two lines, a
    line break and the answer, and the answer printed is the text of the
    model turn that now ends [History]; a turn that throws prints
    nothing. *)
Theorem X3_chatting_prints_the_answer
    {Vec : Type} (w : World Vec) (env : Env) (q : string) (s : State Vec) :
  let s' := (chatting w env q s).2 in
  match (chatting w env q s).1 with
  | Returned _ =>
      exists a, printed (new_events s s') = [newline; a] /\
                answer_text s' = Some a
  | Thrown _ => printed (new_events s s') = []
  end.
Proof.
  destruct (chatting_turn w env q s) as (o & added & n & evs & Hturn & Hrun).
  rewrite Hrun. cbn [fst snd]. rewrite new_events_app.
  destruct Hturn; try reflexivity.
  eexists. split; [reflexivity|].
  unfold answer_text. cbn [History].
  change [user_turn (response_text r); model_turn (response_text a)]
    with ([user_turn (response_text r)] ++ [model_turn (response_text a)]).
  by rewrite app_assoc, last_snoc.
Qed.

(** X4: a turn makes between one and four requests, one after the other,
    and stops at the first that is rejected: it makes four when it returns,
    and when it throws the last thing it did was a request. *)
Theorem X4_chatting_requests
    {Vec : Type} (w : World Vec) (env : Env) (q : string) (s : State Vec) :
  let s' := (chatting w env q s).2 in
  let evs := new_events s s' in
  clock s' = count_requests evs + clock s /\
  1 <= count_requests evs <= 4 /\
  match (chatting w env q s).1 with
  | Returned _ => count_requests evs = 4
  | Thrown _ => exists ev, last evs = Some ev /\ is_request ev
  end.
Proof.
  destruct (chatting_turn w env q s) as (o & added & n & evs & Hturn & Hrun).
  rewrite Hrun. cbn [fst snd clock]. rewrite new_events_app.
  destruct Hturn; cbn; (split; [done|]); (split; [lia|]);
    try done; eexists; (split; [reflexivity|exact I]).
Qed.

(** X5: every request a turn makes to the chat model names the model
    ["gemini-2.0-flash"] and carries the whole of [History] as it was
    before the turn followed by exactly one new user turn; the first such
    request carries the raw utterance. *)
Theorem X5_chat_requests_carry_History
    {Vec : Type} (w : World Vec) (env : Env) (q : string) (s : State Vec) :
  let requests := generate_requests (new_events s (chatting w env q s).2) in
  Forall (fun p => model p = "gemini-2.0-flash" /\
                   exists t, contents p = History s ++ [user_turn t]) requests /\
  head requests = Some (rewrite_request (History s ++ [user_turn q])) /\
  length requests <= 2.
Proof.
  destruct (chatting_turn w env q s) as (o & added & n & evs & Hturn & Hrun).
  rewrite Hrun. cbn [snd]. rewrite new_events_app.
  destruct Hturn; cbn; (split; [|split; [reflexivity|lia]]);
    repeat constructor; unfold provisional; eauto.
Qed.

(** X6: within a turn the stages feed each other: the text sent to the
    embedding service is the text the rewriting call returned, the vector
    sent to the index is the one the embedding service returned for it (with
    [topK] 10 and the metadata asked for), and the answering request is
    built from the matches the index returned for that vector. *)
Theorem X6_chatting_data_flow
    {Vec : Type} (w : World Vec) (env : Env) (q : string) (s : State Vec) :
  Forall
    (fun ev =>
       match ev with
       | EvEmbed p t =>
           p = query_embeddingModel env /\
           exists r,
             generateContent w (clock s)
               (rewrite_request (History s ++ [user_turn q])) = Fulfilled r /\
             t = response_text r
       | EvQuery index o =>
           index = PINECONE_INDEX_NAME env /\
           topK o = 10 /\ includeMetadata o = true /\
           exists t,
             embedQuery w (S (clock s)) (query_embeddingModel env) t
               = Fulfilled (vector o)
       | EvGenerate p =>
           p = rewrite_request (History s ++ [user_turn q]) \/
           exists t v found,
             embedQuery w (S (clock s)) (query_embeddingModel env) t
               = Fulfilled v /\
             index_query w (S (S (clock s))) (PINECONE_INDEX_NAME env)
               (query_options v) = Fulfilled found /\
             p = answer_request (History s ++ [user_turn t]) (build_context found)
       | _ => True
       end)
    (new_events s (chatting w env q s).2).
Proof.
  destruct (chatting_turn w env q s) as (o & added & n & evs & Hturn & Hrun).
  rewrite Hrun. cbn [snd]. rewrite new_events_app.
  destruct Hturn; unfold provisional in *;
    repeat (apply Forall_cons; split); try apply Forall_nil;
    try exact I; repeat split; eauto 10.
Qed.

(** * More about the session *)

Lemma alternating_nil : alternating [].
Proof. intros i c Hat. done. Qed.

Lemma alternating_cons2 a b turns :
  role a = Role.user -> role b = Role.model -> alternating turns ->
  alternating (a :: b :: turns).
Proof.
  intros Ha Hb Hrest [|[|i]] c Hat; simpl in Hat.
  - by inversion Hat; subst.
  - by inversion Hat; subst.
  - apply (Hrest i c Hat).
Qed.

Lemma alternating_exchange_turns exchanges :
  alternating (exchange_turns exchanges).
Proof.
  induction exchanges as [|x rest IH]; [apply alternating_nil|].
  by apply alternating_cons2.
Qed.

Lemma length_exchange_turns exchanges :
  length (exchange_turns exchanges) = 2 * length exchanges.
Proof. induction exchanges as [|x rest IH]; simpl in *; lia. Qed.

(** A user turn after completed exchanges keeps the alternation. *)
Lemma alternating_exchange_turns_user exchanges t :
  alternating (exchange_turns exchanges ++ [user_turn t]).
Proof.
  induction exchanges as [|x rest IH].
  - intros [|i] c Hat; simpl in Hat; [by inversion Hat; subst | done].
  - by apply alternating_cons2.
Qed.

Section SessionFacts.
Context {Vec : Type} (w : World Vec) (env : Env).

Lemma printed_app (evs evs' : list (Event Vec)) :
  printed (evs ++ evs') = printed evs ++ printed evs'.
Proof. apply flat_map_app. Qed.

(** What a turn that returns has done to the state *)
Lemma chatting_returned_state q s u s' :
  chatting w env q s = (Returned u, s') ->
  exists x : string * string,
    History s' = History s ++ exchange_turns [x] /\
    printed (log s') = printed (log s) ++ exchange_prints [x] /\
    clock s' = 4 + clock s.
Proof.
  intros Hrun.
  destruct (chatting_turn w env q s) as (o & added & n & evs & Hturn & Hrun').
  rewrite Hrun in Hrun'. inversion Hrun'; subst; clear Hrun'.
  inversion Hturn; subst.
  exists (response_text r, response_text a). cbn [History log clock].
  split; [done|]. split; [|done]. by rewrite printed_app.
Qed.

(** History, output and request count at the prompts of a session *)
Lemma prompts_exchanges input : forall s0 N s,
  prompts w env input s0 !! N = Some s ->
  exists more,
    length more = N /\
    History s = History s0 ++ exchange_turns more /\
    printed (log s) = printed (log s0) ++ exchange_prints more /\
    clock s = 4 * N + clock s0.
Proof.
  induction input as [|q rest IH]; intros s0 N s Hat.
  - destruct N as [|N]; simpl in Hat; [|done].
    inversion Hat; subst. exists []. simpl. by rewrite !app_nil_r.
  - destruct N as [|N]; simpl in Hat.
    + inversion Hat; subst. exists []. simpl. by rewrite !app_nil_r.
    + destruct (chatting w env q (asked _ s0)) as [[u|e] s1] eqn:Hrun; [|done].
      destruct (chatting_returned_state _ _ _ _ Hrun) as (x & HH & HP & HC).
      destruct (IH s1 N s Hat) as (more & Hlen & HH' & HP' & HC').
      exists (x :: more). split; [simpl; lia|].
      rewrite HH', HP', HC', HH, HP, HC.
      unfold asked, emit. cbn [History log clock].
      rewrite printed_app. simpl. rewrite app_nil_r, <- !app_assoc.
      repeat split; try done. lia.
Qed.

Lemma prompts_head input s : exists rest, prompts w env input s = s :: rest.
Proof. destruct input; simpl; eauto. Qed.
End SessionFacts.

(** X7: at every prompt of a session the turns of [History] alternate,
    user first, and so does what the chat model is given in the next turn,
    whatever the utterance: the [2 * N] turns of the [N] completed
    exchanges followed by one user turn. *)
Theorem X7_roles_alternate
    {Vec : Type} (w : World Vec) (env : Env) (input : list string)
    (N : nat) (s : State Vec) :
  prompts w env input (initial Vec) !! N = Some s ->
  alternating (History s) /\
  forall q,
    let s0 := asked "Ask me anything --> " s in
    Forall (fun p => alternating (contents p) /\
                     length (contents p) = 2 * N + 1)
           (generate_requests (new_events s0 (chatting w env q s0).2)).
Proof.
  intros Hat.
  destruct (prompts_exchanges w env input _ _ _ Hat)
    as (exchanges & Hlen & HH & _ & _).
  simpl in HH. split.
  - rewrite HH. apply alternating_exchange_turns.
  - intros q s0.
    eapply Forall_impl; [apply (chat_requests_contents w env q s0)|].
    intros p (t & Hp). rewrite Hp. subst s0. cbn [asked emit History].
    rewrite HH. split; [apply alternating_exchange_turns_user|].
    rewrite length_app, length_exchange_turns. simpl. lia.
Qed.

Lemma X7_roles_alternate_witness :
  exists s,
    prompts Scenario.healthy Scenario.env [Scenario.question]
      (initial (list nat)) !! 1 = Some s /\
    alternating (History s) /\
    forall q,
      let s0 := asked "Ask me anything --> " s in
      Forall (fun p => alternating (contents p) /\
                       length (contents p) = 2 * 1 + 1)
             (generate_requests
                (new_events s0 (chatting Scenario.healthy Scenario.env q s0).2)).
Proof.
  eexists. split.
  - vm_compute. reflexivity.
  - apply (X7_roles_alternate Scenario.healthy Scenario.env
             [Scenario.question] 1).
    vm_compute. reflexivity.
Defined.

(** X8: once a turn has thrown, [main] has thrown too and what is left of
    the input is never read: with any further lines appended the run ends
    in the same exception and the same state. *)
Theorem X8_main_reads_nothing_after_rejection
    {Vec : Type} (w : World Vec) (env : Env) (input : list string)
    (s s' : State Vec) e :
  main w env input s = (Thrown e, s') ->
  forall more, main w env (input ++ more) s = (Thrown e, s').
Proof.
  revert s. induction input as [|q rest IH]; intros s Hmain more.
  - discriminate.
  - change ((q :: rest) ++ more) with (q :: (rest ++ more)).
    rewrite main_cons in *.
    destruct (chatting w env q (asked _ s)) as [[u|e'] s1]; [|done].
    by apply IH.
Qed.

Lemma X8_main_reads_nothing_after_rejection_witness :
  exists s',
    main Scenario.generation_down_once Scenario.env [Scenario.question]
      (initial (list nat)) = (Thrown "503 Service Unavailable", s') /\
    forall more,
      main Scenario.generation_down_once Scenario.env
        ([Scenario.question] ++ more) (initial (list nat))
        = (Thrown "503 Service Unavailable", s').
Proof.
  eexists. split.
  - vm_compute. reflexivity.
  - apply (X8_main_reads_nothing_after_rejection Scenario.generation_down_once
             Scenario.env [Scenario.question]).
    vm_compute. reflexivity.
Defined.

(** X9: a session can be taken up where it stands: when all the lines of
    [input] got their turn and [main] waits at the prompt in state [s1],
    then with further lines [more] it goes on as [main] on [more] started
    in [s1], and its prompts are those on [input] followed by those of that
    continuation. *)
Theorem X9_main_app
    {Vec : Type} (w : World Vec) (env : Env) (input more : list string)
    (s s1 : State Vec) :
  prompts w env input s !! length input = Some s1 ->
  main w env (input ++ more) s = main w env more s1 /\
  prompts w env (input ++ more) s =
    prompts w env input s ++ drop 1 (prompts w env more s1).
Proof.
  revert s. induction input as [|q rest IH]; intros s Hat.
  - simpl in Hat. inversion Hat; subst.
    change ([] ++ more) with more. split; [done|].
    destruct (prompts_head w env more s1) as (tl & ->). reflexivity.
  - change ((q :: rest) ++ more) with (q :: (rest ++ more)).
    rewrite main_cons. simpl in *.
    destruct (chatting w env q (asked _ s)) as [[u|e] s2]; [|done].
    destruct (IH s2 Hat) as [Hmain Hprompts].
    split; [exact Hmain|]. by rewrite Hprompts.
Qed.

Lemma X9_main_app_witness :
  exists s1,
    prompts Scenario.healthy Scenario.env [Scenario.question]
      (initial (list nat)) !! 1 = Some s1 /\
    main Scenario.healthy Scenario.env
      ([Scenario.question] ++ ["And in the worst case?"]) (initial (list nat)) =
      main Scenario.healthy Scenario.env ["And in the worst case?"] s1 /\
    prompts Scenario.healthy Scenario.env
      ([Scenario.question] ++ ["And in the worst case?"]) (initial (list nat)) =
      prompts Scenario.healthy Scenario.env [Scenario.question]
        (initial (list nat))
      ++ drop 1 (prompts Scenario.healthy Scenario.env
                   ["And in the worst case?"] s1).
Proof.
  eexists. split.
  - vm_compute. reflexivity.
  - apply (X9_main_app Scenario.healthy Scenario.env [Scenario.question]
             ["And in the worst case?"]).
    vm_compute. reflexivity.
Defined.

(** X10: at the prompt reached after [N] exchanges of a session, what the
    program has printed is, for each exchange in order, a line break and
    the answer that [History] holds for it, and the services have been
    sent exactly [4 * N] requests. *)
Theorem X10_session_output
    {Vec : Type} (w : World Vec) (env : Env) (input : list string)
    (N : nat) (s : State Vec) :
  prompts w env input (initial Vec) !! N = Some s ->
  exists exchanges,
    length exchanges = N /\
    History s = exchange_turns exchanges /\
    printed (log s) = exchange_prints exchanges /\
    clock s = 4 * N.
Proof.
  intros Hat.
  destruct (prompts_exchanges w env input _ _ _ Hat)
    as (exchanges & Hlen & HH & HP & HC).
  exists exchanges. simpl in *. repeat split; try done. lia.
Qed.

Lemma X10_session_output_witness :
  exists s exchanges,
    prompts Scenario.healthy Scenario.env
      [Scenario.question; "And in the worst case?"] (initial (list nat)) !! 2
      = Some s /\
    length exchanges = 2 /\
    History s = exchange_turns exchanges /\
    printed (log s) = exchange_prints exchanges /\
    clock s = 4 * 2.
Proof.
  eexists.
  destruct (X10_session_output Scenario.healthy Scenario.env
              [Scenario.question; "And in the worst case?"] 2 _
              ltac:(vm_compute; reflexivity)) as (exchanges & H).
  exists exchanges. split; [vm_compute; reflexivity | exact H].
Defined.

(** * More about the ingestion phase *)

Section UpsertFacts.
Context {Vec : Type} (iw : IngestWorld Vec).



End UpsertFacts.



(** * Retrieved passages reach the chat model *)

Lemma append_nil_r (a : string) : a +:+ "" = a.
Proof.
  induction a as [|ch a IH]; [reflexivity|].
  by rewrite append_cons, IH.
Qed.

(** Every joined string is there in full. *)
Lemma join_contains sep x xs :
  x ∈ xs -> exists pre post, join sep xs = pre +:+ x +:+ post.
Proof.
  induction xs as [|x0 [|y rest] IH]; intros Hin.
  - by apply elem_of_nil in Hin.
  - apply list_elem_of_singleton in Hin as ->.
    exists "", "". by rewrite append_nil_r.
  - rewrite join_cons_cons.
    apply elem_of_cons in Hin as [->|Hin].
    + by exists "", (sep +:+ join sep (y :: rest)).
    + destruct (IH Hin) as (pre & post & ->).
      exists (x0 +:+ sep +:+ pre), post. by rewrite !append_assoc.
Qed.

(** The instruction is a fixed head, the context, and a fixed tail. *)
Lemma answer_instruction_split context :
  answer_instruction context =
    String.substring 0 410 (answer_instruction "")
    +:+ context +:+ newline +:+ "      ".
Proof. reflexivity. Qed.

(** X13: the text of every match the index returned is, in full and
    unchanged, part of the context, and with it part of the system
    instruction of the answering request. *)
Theorem X13_every_match_reaches_the_instruction
    (H : list Content) (found : QueryResponse) (m : ScoredPineconeRecord) :
  m ∈ matches found ->
  (exists pre post,
     build_context found = pre +:+ metadata_text (metadata m) +:+ post) /\
  (exists pre post,
     systemInstruction (config (answer_request H (build_context found)))
       = pre +:+ metadata_text (metadata m) +:+ post).
Proof.
  intros Hin.
  assert (exists pre post,
            build_context found = pre +:+ metadata_text (metadata m) +:+ post)
    as (pre & post & Hctx).
  { apply join_contains, list_elem_of_fmap. by exists m. }
  split; [by exists pre, post|].
  cbn [answer_request config systemInstruction].
  rewrite answer_instruction_split, Hctx.
  exists (String.substring 0 410 (answer_instruction "") +:+ pre),
         (post +:+ newline +:+ "      ").
  by rewrite !append_assoc.
Qed.

Lemma X13_every_match_reaches_the_instruction_witness :
  (exists pre post,
     build_context Scenario.hit = pre +:+ Scenario.passage +:+ post) /\
  (exists pre post,
     systemInstruction (config (answer_request [] (build_context Scenario.hit)))
       = pre +:+ Scenario.passage +:+ post).
Proof.
  apply (X13_every_match_reaches_the_instruction [] Scenario.hit
           {| metadata := {| metadata_text := Scenario.passage |} |}).
  simpl. constructor.
Defined.

(** * The history of a whole session *)

Section FinalFacts.
Context {Vec : Type} (w : World Vec) (env : Env).

(** A turn that throws has appended nothing, or one user turn. *)
Lemma chatting_thrown_stray q s e s' :
  chatting w env q s = (Thrown e, s') ->
  exists stray,
    History s' = History s ++ stray /\
    (stray = [] \/ exists t, stray = [user_turn t]).
Proof.
  intros Hrun.
  destruct (chatting_turn w env q s) as (o & added & n & evs & Hturn & Hrun').
  rewrite Hrun in Hrun'. inversion Hrun'; subst; clear Hrun'.
  exists added. split; [done|].
  inversion Hturn; subst; eauto.
Qed.

(** Where [main] ends: at its last prompt when every line got its turn,
    and otherwise in the turn that threw, started from the last prompt. *)
Lemma main_final input : forall s0,
  exists s_last,
    last (prompts w env input s0) = Some s_last /\
    match main w env input s0 with
    | (Returned _, s') =>
        s' = asked "Ask me anything --> " s_last /\
        completed w env input s0 = length input
    | (Thrown e, s') =>
        completed w env input s0 < length input /\
        exists q, chatting w env q (asked "Ask me anything --> " s_last)
                    = (Thrown e, s')
    end.
Proof.
  induction input as [|q rest IH]; intros s0.
  - exists s0. by split.
  - rewrite main_cons. unfold completed. simpl.
    destruct (chatting w env q (asked _ s0)) as [[u|e] s1] eqn:Hrun.
    + destruct (IH s1) as (s_last & Hlast & Hend).
      destruct (prompts_head w env rest s1) as (tl & Htl).
      exists s_last. split.
      * rewrite Htl in *. by rewrite last_cons_cons.
      * unfold completed in Hend. rewrite Htl in *. simpl in *.
        destruct (main w env rest s1) as [[u'|e'] s']; naive_solver lia.
    + exists s0. split; [done|]. split; [simpl; lia|]. by exists q.
Qed.
End FinalFacts.

(** C5, as stated, fails: in this session the first exchange completes and
    the rewriting call of the second turn is rejected; the session ends
    with one completed exchange and three entries in [History], the last
    being the provisional user turn of the second utterance. *)
Lemma C5_stray_entry_after_rejected_turn :
  let input := [Scenario.question; "And in the worst case?"] in
  let session := main Scenario.rewrite_down_in_second_turn Scenario.env input
                   (initial (list nat)) in
  session.1 = Thrown "503 Service Unavailable" /\
  completed Scenario.rewrite_down_in_second_turn Scenario.env input
    (initial (list nat)) = 1 /\
  length (History session.2) = 3 /\
  last (History session.2) = Some (user_turn "And in the worst case?") /\
  length (History session.2) <> 2 * 1.
Proof. vm_compute. repeat split; discriminate. Qed.

(** C5, amended: for every session and every number [N] of completed
    exchanges, [History] at the prompt that [main] reaches after these [N]
    exchanges has length exactly [2 * N]: it is made of the user turn and
    the model turn of each exchange, in order, and of nothing else.  A
    session ends with the first turn that throws; [History] is then the
    turns of the [N] completed exchanges followed by at most one more user
    turn, and it is exactly these turns when no turn threw. *)
Theorem C5_History_of_a_session
    {Vec : Type} (w : World Vec) (env : Env) (input : list string) :
  (forall N s,
     prompts w env input (initial Vec) !! N = Some s ->
     length (History s) = 2 * N /\
     exists exchanges,
       length exchanges = N /\ History s = exchange_turns exchanges) /\
  (let N := completed w env input (initial Vec) in
   let session := main w env input (initial Vec) in
   exists exchanges stray,
     length exchanges = N /\
     History session.2 = exchange_turns exchanges ++ stray /\
     match session.1 with
     | Returned _ => stray = [] /\ N = length input
     | Thrown _ =>
         N < length input /\ (stray = [] \/ exists t, stray = [user_turn t])
     end).
Proof.
  split.
  - intros N s Hat. split.
    + by rewrite (prompts_history_length w env input _ _ _ Hat).
    + by apply (prompts_history_exchanges w env input (initial Vec) N s []).
  - intros N session.
    destruct (main_final w env input (initial Vec)) as (s_last & Hlast & Hend).
    rewrite last_lookup in Hlast.
    assert (Hat : prompts w env input (initial Vec) !! N = Some s_last).
    { subst N. unfold completed.
      by replace (length (prompts w env input (initial Vec)) - 1)
        with (pred (length (prompts w env input (initial Vec)))) by lia. }
    destruct (prompts_history_exchanges w env input (initial Vec) N s_last []
                eq_refl Hat) as (exchanges & Hlen & HH).
    simpl in HH. exists exchanges. subst session.
    destruct (main w env input (initial Vec)) as [[u|e] s'] eqn:Hmain;
      cbn [fst snd].
    + destruct Hend as [-> Hall]. exists [].
      cbn [asked emit History]. rewrite app_nil_r. by repeat split.
    + destruct Hend as (Hless & q & Hrun).
      destruct (chatting_thrown_stray w env q _ e s' Hrun)
        as (stray & Hs' & Hstray).
      exists stray. cbn [asked emit History] in Hs'. rewrite Hs', HH.
      by repeat split.
Qed.

Lemma C5_History_of_a_session_witness :
  let input := [Scenario.question; "And in the worst case?"] in
  (exists s,
     prompts Scenario.rewrite_down_in_second_turn Scenario.env input
       (initial (list nat)) !! 1 = Some s /\
     length (History s) = 2 * 1 /\
     exists exchanges,
       length exchanges = 1 /\ History s = exchange_turns exchanges) /\
  (let N := completed Scenario.rewrite_down_in_second_turn Scenario.env input
              (initial (list nat)) in
   let session := main Scenario.rewrite_down_in_second_turn Scenario.env input
                    (initial (list nat)) in
   exists exchanges stray,
     length exchanges = N /\
     History session.2 = exchange_turns exchanges ++ stray /\
     match session.1 with
     | Returned _ => stray = [] /\ N = length input
     | Thrown _ =>
         N < length input /\ (stray = [] \/ exists t, stray = [user_turn t])
     end).
Proof.
  intros input.
  destruct (C5_History_of_a_session Scenario.rewrite_down_in_second_turn
              Scenario.env input) as [Hprompt Hsession].
  split; [|exact Hsession].
  eexists. split; [vm_compute; reflexivity|].
  apply Hprompt. vm_compute. reflexivity.
Defined.

(** * One embedding model for both phases *)

(** Whatever the store answers, a row of the index after a batch is a row
    that was there before or holds a vector of the batch. *)
Lemma store_rows_values {Vec : Type} (iw : IngestWorld Vec) dbConfig
    (P : Vec -> Prop) (dvs : list (Document * Vec)) :
  Forall (fun dv => P dv.2) dvs ->
  forall acc id row,
    rows (foldl (store_row iw dbConfig) acc dvs).2 !! id = Some row ->
    rows acc.2 !! id = Some row \/ P (values row).
Proof.
  induction 1 as [|[d v] dvs Hv Hdvs IH]; intros [failed ix] id row Hrow.
  - by left.
  - cbn [foldl] in Hrow. apply IH in Hrow as [Hrow|?]; [|by right].
    unfold store_row in Hrow. cbn [snd].
    destruct (store_upsert iw _ _ _ _); simpl in Hrow.
    + destruct (decide (assign_id iw (issued ix) d = id)) as [<-|Hne].
      * rewrite lookup_insert_eq in Hrow. inversion Hrow; subst. by right.
      * rewrite lookup_insert_ne in Hrow by done. by left.
    + by left.
Qed.

(** C7: the ingestion script and the query script construct their embedding
    client with the same model identifier, ["text-embedding-004"], whatever
    the environment, and with the same configuration in a given
    environment.  Whenever the rewriting call answers, the turn embeds the
    rewritten query with that configuration, and it embeds nothing
    otherwise.  So, for an embedding service whose vectors have a dimension
    fixed by the model identifier, every vector a turn sends to the index
    and every vector a run of the ingestion writes to it (also a run that
    throws) has the one dimension of that model; the ingestion hands the
    store the very configuration the query script embeds with. *)
Theorem C7_same_embedding_model
    {Vec : Type} (dimension : Vec -> nat) (dim_of : string -> nat)
    (w : World Vec) (iw : IngestWorld Vec) (env_index env_query : Env) :
  (forall t cfg text v,
     embedQuery w t cfg text = Fulfilled v ->
     dimension v = dim_of (embedding_model cfg)) ->
  (forall cfg texts vs,
     embedDocuments iw cfg texts = Fulfilled vs ->
     Forall (fun v => dimension v = dim_of (embedding_model cfg)) vs) ->
  embedding_model (index_embeddingModel env_index) = "text-embedding-004" /\
  embedding_model (query_embeddingModel env_query) = "text-embedding-004" /\
  (forall env, index_embeddingModel env = query_embeddingModel env) /\
  (forall q s,
     (forall r,
        generateContent w (clock s)
          (rewrite_request (History s ++ [user_turn q])) = Fulfilled r ->
        EvEmbed (query_embeddingModel env_query) (response_text r)
          ∈ new_events s (chatting w env_query q s).2) /\
     Forall
       (fun ev =>
          match ev with
          | EvEmbed p _ =>
              p = query_embeddingModel env_query /\
              embedding_model p = embedding_model (index_embeddingModel env_index)
          | EvQuery _ o => dimension (vector o) = dim_of "text-embedding-004"
          | _ => True
          end)
       (new_events s (chatting w env_query q s).2)) /\
  (forall ix rawDocs,
     pdf_load iw PDF_PATH = Fulfilled rawDocs ->
     saveDocumentIntoVectorDatabase iw env_index ix =
       PineconeStore_fromDocuments iw (splitDocuments iw textSplitter rawDocs)
         (query_embeddingModel env_index)
         {| pineconeIndex := PINECONE_INDEX_NAME env_index;
            maxConcurrency := 5 |} ix) /\
  (forall ix id row,
     rows (saveDocumentIntoVectorDatabase iw env_index ix).2 !! id = Some row ->
     rows ix !! id = Some row \/
     dimension (values row) = dim_of "text-embedding-004").
Proof.
  intros Hquery Hdocs.
  split; [done|]. split; [done|]. split; [done|]. split; [|split].
  2: { intros ix rawDocs Hload.
       unfold saveDocumentIntoVectorDatabase. by rewrite Hload. }
  - intros q s.
    destruct (chatting_turn w env_query q s)
      as (o & added & n & evs & Hturn & Hrun).
    rewrite Hrun. cbn [snd]. rewrite new_events_app.
    destruct Hturn as [e Hgen|r e Hgen Hemb|r v e Hgen Hemb Hqry
                      |r v found e Hgen Hemb Hqry Hans
                      |r v found a Hgen Hemb Hqry Hans];
      unfold provisional in *; (split; [intros r' Hr'; rewrite Hr' in Hgen|]);
      try discriminate;
      try (inversion Hgen; subst; rewrite !elem_of_cons; tauto);
      repeat (apply Forall_cons; split); try apply Forall_nil;
      try exact I; try (by split);
      apply (Hquery _ _ _ _ Hemb).
  - intros ix id row.
    unfold saveDocumentIntoVectorDatabase, PineconeStore_fromDocuments.
    destruct (pdf_load iw PDF_PATH) as [rawDocs|e]; cbn [snd]; [|by left].
    destruct (embedDocuments iw _ _) as [vs|e] eqn:Hemb; cbn [snd]; [|by left].
    intros Hrow.
    assert (Forall (fun dv : Document * Vec =>
                      dimension dv.2 = dim_of "text-embedding-004")
                   (zip (splitDocuments iw textSplitter rawDocs) vs)) as Hall.
    { apply Forall_forall. intros [d v] Hin%elem_of_zip_r.
      pose proof (Hdocs _ _ _ Hemb) as Hvs.
      rewrite Forall_forall in Hvs. by apply Hvs. }
    pose proof (store_rows_values iw
                  {| pineconeIndex := PINECONE_INDEX_NAME env_index;
                     maxConcurrency := 5 |}
                  (fun v => dimension v = dim_of "text-embedding-004")
                  _ Hall (None, ix) id row) as Hkeep.
    destruct (foldl _ _ _) as [[e|] ix']; cbn [snd] in *; by apply Hkeep.
Qed.

Lemma C7_same_embedding_model_witness :
  EvEmbed (query_embeddingModel Scenario.env) Scenario.standalone
    ∈ new_events (initial (list nat))
        (chatting Scenario.healthy Scenario.env Scenario.question
           (initial (list nat))).2 /\
  (forall id row,
     rows (saveDocumentIntoVectorDatabase Scenario.store_down_after_one
             Scenario.env (empty_index (list nat))).2 !! id = Some row ->
     rows (empty_index (list nat)) !! id = Some row \/
     length (values row) = 3).
Proof.
  destruct (C7_same_embedding_model (@length nat) (fun _ => 3)
              Scenario.healthy Scenario.store_down_after_one
              Scenario.env Scenario.env)
    as (_ & _ & _ & Hturn & _ & Hrows).
  - intros t cfg text v Hv. by inversion Hv.
  - intros cfg texts vs Hvs. inversion Hvs; subst.
    apply Forall_fmap, Forall_true. reflexivity.
  - split.
    + apply (proj1 (Hturn Scenario.question (initial (list nat)))
               (Scenario.chat (rewrite_request
                  (provisional Scenario.question (initial (list nat)))))).
      reflexivity.
    + apply Hrows.
Defined.

(** The ingestion can throw after it has written: here the store accepts
    the first of two records and rejects the second. *)
Lemma ingestion_throws_after_writing :
  let run := saveDocumentIntoVectorDatabase Scenario.store_down_after_one
               Scenario.env (empty_index (list nat)) in
  run.1 = Thrown "503 Service Unavailable" /\ size (rows run.2) = 1.
Proof. vm_compute. by split. Qed.
